(** * femtoWorldProducerTask: a shallow embedding of the producer and its
      selection gates

    The development follows [femtoWorldProducerTask.cxx]: the free function
    [getRowDaughters], the members [IsKaonNSigma], [getMagneticFieldTesla]
    and [processProd] of the task, and the two output cursors
    [outputCollision] and [outputParts].

    Numeric model.  [float] and [double] values, and the decimal literals
    of the source, are modelled by the rationals they denote ([Q]); the
    comparisons of the source are the exact comparisons of these rationals.
    The limits of the [Configurable<float>]s declared inside the Phi
    branch are the [float] values their literals round to.  Rounding of
    computed values and NaN are outside the model.  C [int] is 32-bit: where the
    source stores a wider value into an [int], the conversion [to_int] is
    written out; [uint8_t] casts are [to_uint8]. *)

From Stdlib Require Import ZArith QArith Qabs List Bool Lia Lqa.
Import ListNotations.

Local Open Scope Z_scope.

(** ** Machine integers *)

Definition to_int (z : Z) : Z := (z + 2147483648) mod 4294967296 - 2147483648.

Definition to_uint8 (z : Z) : Z := z mod 256.

Definition int_range (z : Z) : Prop := -2147483648 <= z < 2147483648.

(** ** Comparisons on the numeric model *)

Definition Qltb (x y : Q) : bool := negb (Qle_bool y x).

Definition Qgtb (x y : Q) : bool := Qltb y x.

(** The finite values of a C [float] (IEEE binary32): [m * 2^e] with
    [|m| < 2^24] and [-149 <= e <= 104], written over the denominator
    [2^149]. *)
Definition isFloat32 (q : Q) : Prop :=
  exists m e : Z,
    Z.abs m < 2 ^ 24
    /\ -149 <= e <= 104
    /\ (q == Qmake (m * 2 ^ (e + 149)) (2 ^ 149)%positive)%Q.

(** The [double] the literal [0.4] of [IsKaonNSigma] denotes,
    0x3FD999999999999A. *)
Definition double_0_4 : Q := 3602879701896397 # 9007199254740992.

(** The [float] nearest to 0.4, 0x3ECCCCCD: what a momentum of 0.4 is as
    a [float]. *)
Definition float_0_4 : Q := 13421773 # 33554432.

(** ** Input tables *)

Inductive TrackTypeEnum : Type :=
| TT_Track
| TT_TrackIU
| TT_Run2Track
| TT_Run2Tracklet.

Definition TrackTypeEnum_eqb (a b : TrackTypeEnum) : bool :=
  match a, b with
  | TT_Track, TT_Track
  | TT_TrackIU, TT_TrackIU
  | TT_Run2Track, TT_Run2Track
  | TT_Run2Tracklet, TT_Run2Tracklet => true
  | _, _ => false
  end.

(** A row of [aod::FemtoFullTracks]: the accessors the task reads. *)
Record Track : Type := mkTrack {
  globalIndex : Z;
  trackType : TrackTypeEnum;
  pt : Q;
  eta : Q;
  phi : Q;
  p : Q;
  sign : Z;
  beta : Q;
  itsChi2NCl : Q;
  tpcChi2NCl : Q;
  tpcNSigmaKa : Q;
  tofNSigmaKa : Q;
  tpcNClsFound : Z;
  tpcNClsFindable : Z;
  tpcNClsCrossedRows : Z;
  tpcNClsShared : Z;
  tpcInnerParam : Q;
  itsNCls : Z;
  itsNClsInnerBarrel : Z;
  dcaXY : Q;
  dcaZ : Q;
  tpcSignal : Q;
  tpcNSigmaStoreEl : Z;
  tpcNSigmaStorePi : Z;
  tpcNSigmaStoreKa : Z;
  tpcNSigmaStorePr : Z;
  tpcNSigmaStoreDe : Z;
  tofNSigmaStoreEl : Z;
  tofNSigmaStorePi : Z;
  tofNSigmaStoreKa : Z;
  tofNSigmaStorePr : Z;
  tofNSigmaStoreDe : Z
}.

(** A row of [o2::aod::V0Datas] with its two joined daughter rows
    ([posTrack_as], [negTrack_as]). *)
Record V0 : Type := mkV0 {
  posTrackId : Z;
  negTrackId : Z;
  posTrack : Track;
  negTrack : Track;
  positivept : Q;
  positiveeta : Q;
  positivephi : Q;
  negativept : Q;
  negativeeta : Q;
  negativephi : Q;
  v0pt : Q;
  v0eta : Q;
  v0phi : Q;
  mLambda : Q;
  mAntiLambda : Q
}.

(** The bunch crossing of a collision ([aod::BCsWithTimestamps]). *)
Record BC : Type := mkBC {
  runNumber : Z;
  timestamp : Z
}.

(** A row of [aod::FemtoFullCollision]. *)
Record Collision : Type := mkCollision {
  bc : BC;
  posX : Q;
  posY : Q;
  posZ : Q;
  multFV0M : Q;
  multFT0M : Q
}.

(** The conditions object fetched from the CCDB. *)
Record GRPObject : Type := mkGRP {
  getNominalL3Field : Z
}.

(** ** Output tables *)

Inductive ParticleType : Type :=
| kTrack
| kV0
| kV0Child
| kPhi
| kPhiChild.

(** A row of [aod::FemtoWorldCollisions]. *)
Record CollisionRow : Type := mkCollisionRow {
  cr_posZ : Q;
  cr_mult : Q;
  cr_sphericity : Q;
  cr_magField : Q
}.

(** The detector-level columns that close every particle row. *)
Record DebugCols : Type := mkDebug {
  d_sign : Z;
  d_beta : Q;
  d_itsChi2NCl : Q;
  d_tpcChi2NCl : Q;
  d_tpcNSigmaKaon : Q;
  d_tofNSigmaKaon : Q;
  d_tpcNClsFound : Z;
  d_tpcNClsFindable : Z;
  d_tpcNClsCrossedRows : Z;
  d_tpcNClsShared : Z;
  d_tpcInnerParam : Q;
  d_itsNCls : Z;
  d_itsNClsInnerBarrel : Z;
  d_dcaXY : Q;
  d_dcaZ : Q;
  d_tpcSignal : Q;
  d_tpcNSigmaStoreEl : Z;
  d_tpcNSigmaStorePi : Z;
  d_tpcNSigmaStoreKa : Z;
  d_tpcNSigmaStorePr : Z;
  d_tpcNSigmaStoreDe : Z;
  d_tofNSigmaStoreEl : Z;
  d_tofNSigmaStorePi : Z;
  d_tofNSigmaStoreKa : Z;
  d_tofNSigmaStorePr : Z;
  d_tofNSigmaStoreDe : Z;
  d_trailing : list Q
}.

(** A row of [aod::FemtoWorldParticles]. *)
Record ParticleRow : Type := mkParticleRow {
  r_collisionId : Z;
  r_pt : Q;
  r_eta : Q;
  r_phi : Q;
  r_p : Q;
  r_mass : Q;
  r_partType : ParticleType;
  r_cut : N;
  r_pidcut : N;
  r_tempFitVar : Q;
  r_childrenIds : Z * Z;
  r_mLambda : Q;
  r_mAntiLambda : Q;
  r_debug : DebugCols
}.

(** The six trailing arguments of every [outputParts] call. *)
Definition trailing999 : list Q := repeat (-999 # 1)%Q 6.

(** The detector columns as the Track, V0Child, V0 and PhiChild rows fill
    them from a track. *)
Definition debugOf (t : Track) : DebugCols :=
  mkDebug (sign t) (beta t) (itsChi2NCl t) (tpcChi2NCl t)
          (tpcNSigmaKa t) (tofNSigmaKa t)
          (to_uint8 (tpcNClsFound t)) (tpcNClsFindable t)
          (to_uint8 (tpcNClsCrossedRows t)) (tpcNClsShared t)
          (tpcInnerParam t) (itsNCls t) (itsNClsInnerBarrel t)
          (dcaXY t) (dcaZ t) (tpcSignal t)
          (tpcNSigmaStoreEl t) (tpcNSigmaStorePi t) (tpcNSigmaStoreKa t)
          (tpcNSigmaStorePr t) (tpcNSigmaStoreDe t)
          (tofNSigmaStoreEl t) (tofNSigmaStorePi t) (tofNSigmaStoreKa t)
          (tofNSigmaStorePr t) (tofNSigmaStoreDe t)
          trailing999.

(** The detector columns of the Phi parent row: findable clusters, crossed
    rows and the two DCA columns are the literal 0. *)
Definition debugOfPhi (t : Track) : DebugCols :=
  mkDebug (sign t) (beta t) (itsChi2NCl t) (tpcChi2NCl t)
          (tpcNSigmaKa t) (tofNSigmaKa t)
          (to_uint8 (tpcNClsFound t)) 0
          0 (tpcNClsShared t)
          (tpcInnerParam t) (itsNCls t) (itsNClsInnerBarrel t)
          0%Q 0%Q (tpcSignal t)
          (tpcNSigmaStoreEl t) (tpcNSigmaStorePi t) (tpcNSigmaStoreKa t)
          (tpcNSigmaStorePr t) (tpcNSigmaStoreDe t)
          (tofNSigmaStoreEl t) (tofNSigmaStorePi t) (tofNSigmaStoreKa t)
          (tofNSigmaStorePr t) (tofNSigmaStoreDe t)
          trailing999.

(** ** Configuration *)

(** The [Configurable] members that [processProd] and [IsKaonNSigma]
    read. *)
Record Config : Type := mkConfig {
  ConfIsTrigger : bool;
  ConfIsRun3 : bool;
  ConfStoreV0 : bool;
  ConfStorePhi : bool;
  ConfRejectITSHitandTOFMissing : bool;
  ConfInvMassLowLimitPhi : Q;
  ConfInvMassUpLimitPhi : Q;
  ConfNsigmaTPCTOFKaon : bool;
  ConfNsigmaCombinedKaon : Q;
  ConfNsigmaTPCKaon : Q
}.

(** The declared defaults. *)
Definition defaultConfig : Config :=
  mkConfig false false true true false
           (1005 # 1000) (1035 # 1000) true (5 # 1) (5 # 1).

(** The [Configurable]s declared inside the Phi branch of [processProd];
    being locals they always hold their defaults, as [float]s:
    0.14f is 9395241 / 2^26, 0.8f is 13421773 / 2^24, 1.5f is 3/2. *)
Definition ConfPDGCodePartOne : Z := 321.
Definition cfgPtLowPart1 : Q := 9395241 # 67108864.
Definition cfgPtHighPart1 : Q := 15 # 10.
Definition cfgPLowPart1 : Q := 9395241 # 67108864.
Definition cfgPHighPart1 : Q := 15 # 10.
Definition cfgEtaLowPart1 : Q := - (13421773 # 16777216).
Definition cfgEtaHighPart1 : Q := 13421773 # 16777216.
Definition ConfPDGCodePartTwo : Z := 321.
Definition cfgPtLowPart2 : Q := 9395241 # 67108864.
Definition cfgPtHighPart2 : Q := 15 # 10.
Definition cfgPLowPart2 : Q := 9395241 # 67108864.
Definition cfgPHighPart2 : Q := 15 # 10.
Definition cfgEtaLowPart2 : Q := - (13421773 # 16777216).
Definition cfgEtaHighPart2 : Q := 13421773 # 16777216.

(** ** getRowDaughters *)

(** The loop of [getRowDaughters] from index [i]: the first position whose
    entry equals [daughID], stored into an [int]; [-1] when the loop ends
    without a match. *)
Fixpoint getRowDaughters_from (i : nat) (daughID : Z) (vecID : list Z) : Z :=
  match vecID with
  | [] => -1
  | x :: rest =>
      if x =? daughID then to_int (Z.of_nat i)
      else getRowDaughters_from (S i) daughID rest
  end.

Definition getRowDaughters (daughID : Z) (vecID : list Z) : Z :=
  getRowDaughters_from 0 daughID vecID.

(** ** Selection results *)

Module femtoWorldV0Selection.

(** [V0ContainerPosition]: the five slots of a composite cut container. *)
Inductive V0ContainerPosition : Type :=
| kV0
| kPosCuts
| kPosPID
| kNegCuts
| kNegPID.

End femtoWorldV0Selection.

(** [std::array<cutContainerType, 5>]; [cutContainerType] is unsigned. *)
Record CutContainer : Type := mkCutContainer {
  slot_V0 : N;
  slot_PosCuts : N;
  slot_PosPID : N;
  slot_NegCuts : N;
  slot_NegPID : N
}.

Definition at_ (c : CutContainer)
    (pos : femtoWorldV0Selection.V0ContainerPosition) : N :=
  match pos with
  | femtoWorldV0Selection.kV0 => slot_V0 c
  | femtoWorldV0Selection.kPosCuts => slot_PosCuts c
  | femtoWorldV0Selection.kPosPID => slot_PosPID c
  | femtoWorldV0Selection.kNegCuts => slot_NegCuts c
  | femtoWorldV0Selection.kNegPID => slot_NegPID c
  end.

(** ** TLorentzVector *)

Record TLorentzVector : Type := mkLV {
  fX : Q;
  fY : Q;
  fZ : Q;
  fE : Q
}.

(** [operator+=]: the component-wise sum. *)
Definition lv_add (a b : TLorentzVector) : TLorentzVector :=
  mkLV (fX a + fX b)%Q (fY a + fY b)%Q (fZ a + fZ b)%Q (fE a + fE b)%Q.

(** ** Collaborators

    The selection classes, ROOT's numeric routines and the conditions
    database are defined outside the task; the task is parametric in
    them. *)
Record Collaborators : Type := mkCollaborators {
  colCuts_isSelected : Collision -> bool;
  colCuts_computeSphericity : Collision -> list Track -> Q;
  trackCuts_isSelectedMinimal : Track -> bool;
  v0Cuts_isSelectedMinimal : Collision -> V0 -> Track -> Track -> bool;
  v0Cuts_getCutContainer : Collision -> V0 -> Track -> Track -> CutContainer;
  PhiCuts_getCutContainer : Collision -> Track -> Track -> CutContainer;
  v0cosPA : V0 -> Q -> Q -> Q -> Q;
  TMath_Hypot : Q -> Q -> Q;
  PDG_Mass : Z -> Q;
  SetPtEtaPhiM : Q -> Q -> Q -> Q -> TLorentzVector;
  lv_Eta : TLorentzVector -> Q;
  lv_Phi : TLorentzVector -> Q;
  lv_Pt : TLorentzVector -> Q;
  lv_P : TLorentzVector -> Q;
  lv_M : TLorentzVector -> Q;
  ccdb_getForTimeStamp : Z -> option GRPObject
}.

(** Modelled from the spec: the pair generator
    [combinations(soa::CombinationsStrictlyUpperIndexPolicy(tracks, tracks))]
    belongs to the framework; the spec has it enumerate every
    strictly-increasing-index pair of the event's tracks, in index order. *)
Fixpoint combinations {A : Type} (l : list A) : list (A * A) :=
  match l with
  | [] => []
  | x :: rest => map (pair x) rest ++ combinations rest
  end.

(** ** Task state and output cursors *)

(** What the two [Produces] cursors have written, in the order of the
    calls. *)
Inductive Emission : Type :=
| EmitCollision (r : CollisionRow)
| EmitParticle (r : ParticleRow).

(** The members [mRunNumber] and [mMagField], the function-local static
    [grpo] of [getMagneticFieldTesla], the timestamps the CCDB was asked
    for, and the rows written so far. *)
Record Task : Type := mkTask {
  mRunNumber : Z;
  mMagField : Q;
  grpo : option GRPObject;
  ccdbQueries : list Z;
  emitted : list Emission
}.

(** The state [init] leaves. *)
Definition initTask : Task := mkTask 0 0%Q None [] [].

Fixpoint collisionRows (l : list Emission) : list CollisionRow :=
  match l with
  | [] => []
  | EmitCollision r :: rest => r :: collisionRows rest
  | EmitParticle _ :: rest => collisionRows rest
  end.

Fixpoint particleRows (l : list Emission) : list ParticleRow :=
  match l with
  | [] => []
  | EmitCollision _ :: rest => particleRows rest
  | EmitParticle r :: rest => r :: particleRows rest
  end.

Definition outputCollision (r : CollisionRow) (st : Task) : Task :=
  mkTask (mRunNumber st) (mMagField st) (grpo st) (ccdbQueries st)
         (emitted st ++ [EmitCollision r]).

Definition outputParts (r : ParticleRow) (st : Task) : Task :=
  mkTask (mRunNumber st) (mMagField st) (grpo st) (ccdbQueries st)
         (emitted st ++ [EmitParticle r]).

(** Modelled from the spec: [lastIndex()] of a [Produces] cursor is
    framework code; the spec has row indices assigned at emission time, so
    it is the index of the row written last, [-1] before the first row. *)
Definition outputCollision_lastIndex (st : Task) : Z :=
  Z.of_nat (length (collisionRows (emitted st))) - 1.

Definition outputParts_lastIndex (st : Task) : Z :=
  Z.of_nat (length (particleRows (emitted st))) - 1.

Section Producer.

Variable cfg : Config.
Variable ext : Collaborators.

(** *** IsKaonNSigma *)

Definition IsKaonNSigma (mom nsigmaTPCK nsigmaTOFK : Q) : bool :=
  if ConfNsigmaTPCTOFKaon cfg then
    if Qltb mom (4 # 10) then
      if Qltb (Qabs nsigmaTPCK) (ConfNsigmaTPCKaon cfg) then true
      else false
    else if Qgtb mom (4 # 10) then
      if Qltb (TMath_Hypot ext nsigmaTOFK nsigmaTPCK)
              (ConfNsigmaCombinedKaon cfg) then true
      else false
    else false
  else false.

(** *** getMagneticFieldTesla

    [None] is the [LOGF(fatal, ...)] exit.  The static [grpo] is fetched
    only while it is still null. *)
Definition getMagneticFieldTesla (st : Task) (ts : Z) : option (Task * Q) :=
  match grpo st with
  | Some g => Some (st, ((1 # 10) * inject_Z (getNominalL3Field g))%Q)
  | None =>
      match ccdb_getForTimeStamp ext ts with
      | None => None
      | Some g =>
          Some (mkTask (mRunNumber st) (mMagField st) (Some g)
                       (ccdbQueries st ++ [ts]) (emitted st),
                ((1 # 10) * inject_Z (getNominalL3Field g))%Q)
      end
  end.

(** The opening block of [processProd]: refresh the field when the run
    number changes. *)
Definition updateMagField (st : Task) (col : Collision) : option Task :=
  if negb (mRunNumber st =? runNumber (bc col)) then
    match getMagneticFieldTesla st (timestamp (bc col)) with
    | None => None
    | Some (st1, field) =>
        Some (mkTask (runNumber (bc col)) field (grpo st1)
                     (ccdbQueries st1) (emitted st1))
    end
  else Some st.

(** *** The track loop *)

(** The argument list of the [outputParts] call of the track loop;
    [collisionId] is [outputCollision.lastIndex()], [childIDs] still
    holds its initial [{0, 0}]. *)
Definition trackRow (collisionId : Z) (track : Track) : ParticleRow :=
  mkParticleRow collisionId
                (pt track) (eta track) (phi track) (p track)
                1%Q kTrack 0%N 0%N (dcaXY track)
                (0, 0) 0%Q 0%Q (debugOf track).

(** One iteration; the accumulator carries the task and [tmpIDtrack]. *)
Definition trackStep (acc : Task * list Z) (track : Track)
  : Task * list Z :=
  let '(st, tmpIDtrack) := acc in
  if negb (trackCuts_isSelectedMinimal ext track) then acc
  else (outputParts (trackRow (outputCollision_lastIndex st) track) st,
        tmpIDtrack ++ [to_int (globalIndex track)]).

(** *** The V0 loop

    The block under [ConfRejectITSHitandTOFMissing] holds only comments
    and does nothing. *)

Definition v0Accepted (cc : CutContainer) : bool :=
  (0 <? at_ cc femtoWorldV0Selection.kV0)%N
  && (0 <? at_ cc femtoWorldV0Selection.kPosCuts)%N
  && (0 <? at_ cc femtoWorldV0Selection.kNegCuts)%N.

(** The argument lists of the three [outputParts] calls of the V0
    branch. *)
Definition v0PosChildRow (collisionId : Z) (cc : CutContainer)
    (rowInPrimaryTrackTablePos : Z) (v0 : V0) : ParticleRow :=
  mkParticleRow collisionId
    (positivept v0) (positiveeta v0) (positivephi v0)
    0%Q 0%Q kV0Child
    (at_ cc femtoWorldV0Selection.kPosCuts)
    (at_ cc femtoWorldV0Selection.kPosPID)
    0%Q (rowInPrimaryTrackTablePos, 0) 0%Q 0%Q
    (debugOf (posTrack v0)).

Definition v0NegChildRow (collisionId : Z) (cc : CutContainer)
    (rowInPrimaryTrackTableNeg : Z) (v0 : V0) : ParticleRow :=
  mkParticleRow collisionId
    (negativept v0) (negativeeta v0) (negativephi v0)
    0%Q 0%Q kV0Child
    (at_ cc femtoWorldV0Selection.kNegCuts)
    (at_ cc femtoWorldV0Selection.kNegPID)
    0%Q (0, rowInPrimaryTrackTableNeg) 0%Q 0%Q
    (debugOf (negTrack v0)).

Definition v0ParentRow (collisionId : Z) (cc : CutContainer)
    (col : Collision) (rowOfPosTrack rowOfNegTrack : Z) (v0 : V0)
  : ParticleRow :=
  mkParticleRow collisionId
    (v0pt v0) (v0eta v0) (v0phi v0)
    0%Q 0%Q kV0
    (at_ cc femtoWorldV0Selection.kV0)
    0%N
    (v0cosPA ext v0 (posX col) (posY col) (posZ col))
    (rowOfPosTrack, rowOfNegTrack)
    (mLambda v0) (mAntiLambda v0)
    (debugOf (posTrack v0)).

Definition v0Step (col : Collision) (tmpIDtrack : list Z)
    (st : Task) (v0 : V0) : Task :=
  let postrack := posTrack v0 in
  let negtrack := negTrack v0 in
  if negb (v0Cuts_isSelectedMinimal ext col v0 postrack negtrack) then st
  else
    let cutContainerV0 :=
      v0Cuts_getCutContainer ext col v0 postrack negtrack in
    if v0Accepted cutContainerV0 then
      let postrackID := to_int (posTrackId v0) in
      let rowInPrimaryTrackTablePos :=
        getRowDaughters postrackID tmpIDtrack in
      let st1 :=
        outputParts
          (v0PosChildRow (outputCollision_lastIndex st) cutContainerV0
             rowInPrimaryTrackTablePos v0) st in
      let rowOfPosTrack := to_int (outputParts_lastIndex st1) in
      let negtrackID := to_int (negTrackId v0) in
      let rowInPrimaryTrackTableNeg :=
        getRowDaughters negtrackID tmpIDtrack in
      let st2 :=
        outputParts
          (v0NegChildRow (outputCollision_lastIndex st1) cutContainerV0
             rowInPrimaryTrackTableNeg v0) st1 in
      let rowOfNegTrack := to_int (outputParts_lastIndex st2) in
      outputParts
        (v0ParentRow (outputCollision_lastIndex st2) cutContainerV0 col
           rowOfPosTrack rowOfNegTrack v0) st2
    else st.

(** *** The Phi loop *)

(** The chain of [continue] tests that opens the loop body: [true] when
    the pair goes on to the mass reconstruction. *)
Definition phiGates (p1 p2 : Track) : bool :=
  if TrackTypeEnum_eqb (trackType p1) TT_Run2Tracklet
     || TrackTypeEnum_eqb (trackType p2) TT_Run2Tracklet then false
  else if globalIndex p1 =? globalIndex p2 then false
  else if Qltb (pt p1) cfgPtLowPart1 || Qgtb (pt p1) cfgPtHighPart1
  then false
  else if Qltb (p p1) cfgPLowPart1 || Qgtb (p p1) cfgPHighPart1
  then false
  else if Qltb (eta p1) cfgEtaLowPart1 || Qgtb (eta p1) cfgEtaHighPart1
  then false
  else if Qltb (pt p2) cfgPtLowPart2 || Qgtb (pt p2) cfgPtHighPart2
  then false
  else if Qltb (p p2) cfgPLowPart2 || Qgtb (p p2) cfgPHighPart2
  then false
  else if Qltb (eta p2) cfgEtaLowPart2 || Qgtb (eta p2) cfgEtaHighPart2
  then false
  else if negb (IsKaonNSigma (p p1) (tpcNSigmaKa p1) (tofNSigmaKa p1))
  then false
  else if negb (IsKaonNSigma (p p2) (tpcNSigmaKa p2) (tofNSigmaKa p2))
  then false
  else true.

(** [sumVec]: the two legs under their mass hypotheses, added. *)
Definition sumVec (p1 p2 : Track) : TLorentzVector :=
  let mMassOne := PDG_Mass ext ConfPDGCodePartOne in
  let mMassTwo := PDG_Mass ext ConfPDGCodePartTwo in
  let part1Vec := SetPtEtaPhiM ext (pt p1) (eta p1) (phi p1) mMassOne in
  let part2Vec := SetPtEtaPhiM ext (pt p2) (eta p2) (phi p2) mMassTwo in
  lv_add part1Vec part2Vec.

(** The argument lists of the three [outputParts] calls of the Phi
    branch. *)
Definition phiPosChildRow (collisionId : Z) (cc : CutContainer)
    (rowInPrimaryTrackTablePos : Z) (p1 : Track) : ParticleRow :=
  mkParticleRow collisionId
    (pt p1) (eta p1) (phi p1) (p p1)
    (PDG_Mass ext ConfPDGCodePartOne) kPhiChild
    (at_ cc femtoWorldV0Selection.kPosCuts)
    (at_ cc femtoWorldV0Selection.kPosPID)
    0%Q (rowInPrimaryTrackTablePos, 0) 0%Q 0%Q
    (debugOf p1).

Definition phiNegChildRow (collisionId : Z) (cc : CutContainer)
    (rowInPrimaryTrackTableNeg : Z) (p2 : Track) : ParticleRow :=
  mkParticleRow collisionId
    (pt p2) (eta p2) (phi p2) (p p2)
    (PDG_Mass ext ConfPDGCodePartTwo) kPhiChild
    (at_ cc femtoWorldV0Selection.kNegCuts)
    (at_ cc femtoWorldV0Selection.kNegPID)
    0%Q (0, rowInPrimaryTrackTableNeg) 0%Q 0%Q
    (debugOf p2).

Definition phiParentRow (collisionId : Z) (cc : CutContainer)
    (rowOfPosTrack rowOfNegTrack : Z) (p1 p2 : Track) : ParticleRow :=
  let phiEta := lv_Eta ext (sumVec p1 p2) in
  let phiPhi := lv_Phi ext (sumVec p1 p2) in
  let phiPt := lv_Pt ext (sumVec p1 p2) in
  let phiP := lv_P ext (sumVec p1 p2) in
  let phiM := lv_M ext (sumVec p1 p2) in
  mkParticleRow collisionId
    phiPt phiEta phiPhi phiP phiM kPhi
    (at_ cc femtoWorldV0Selection.kV0)
    0%N 0%Q (rowOfPosTrack, rowOfNegTrack) 0%Q 0%Q
    (debugOfPhi p1).

(** The body of the [if (true)] block. *)
Definition phiEmit (col : Collision) (tmpIDtrack : list Z)
    (st : Task) (p1 p2 : Track) : Task :=
  let cutContainerV0 := PhiCuts_getCutContainer ext col p1 p2 in
  let postrackID := to_int (globalIndex p1) in
  let rowInPrimaryTrackTablePos :=
    getRowDaughters postrackID tmpIDtrack in
  let st1 :=
    outputParts
      (phiPosChildRow (outputCollision_lastIndex st) cutContainerV0
         rowInPrimaryTrackTablePos p1) st in
  let rowOfPosTrack := to_int (outputParts_lastIndex st1) in
  let negtrackID := to_int (globalIndex p2) in
  let rowInPrimaryTrackTableNeg :=
    getRowDaughters negtrackID tmpIDtrack in
  let st2 :=
    outputParts
      (phiNegChildRow (outputCollision_lastIndex st1) cutContainerV0
         rowInPrimaryTrackTableNeg p2) st1 in
  let rowOfNegTrack := to_int (outputParts_lastIndex st2) in
  outputParts
    (phiParentRow (outputCollision_lastIndex st2) cutContainerV0
       rowOfPosTrack rowOfNegTrack p1 p2) st2.

Definition phiStep (col : Collision) (tmpIDtrack : list Z)
    (st : Task) (pr : Track * Track) : Task :=
  let '(p1, p2) := pr in
  if negb (phiGates p1 p2) then st
  else
    let phiM := lv_M ext (sumVec p1 p2) in
    if Qltb phiM (ConfInvMassLowLimitPhi cfg)
       || Qgtb phiM (ConfInvMassUpLimitPhi cfg) then st
    else
      if true then phiEmit col tmpIDtrack st p1 p2
      else st.

(** *** processProd

    The QA histogram fills ([fillQA], [fillLambdaQA], [fillPhiQAMass])
    only write to the registry and are never read back; they are left
    out. *)

(** The body after the field refresh. *)
Definition produce (st : Task) (col : Collision) (tracks : list Track)
    (fullV0s : list V0) : Task :=
  if negb (colCuts_isSelected ext col) then
    if ConfIsTrigger cfg then
      outputCollision
        (mkCollisionRow (posZ col) (multFV0M col)
           (colCuts_computeSphericity ext col tracks) (mMagField st)) st
    else st
  else
    let vtxZ := posZ col in
    let mult := multFV0M col in
    let spher := colCuts_computeSphericity ext col tracks in
    let st1 :=
      if ConfIsRun3 cfg then
        outputCollision
          (mkCollisionRow vtxZ (multFT0M col) spher (mMagField st)) st
      else
        outputCollision
          (mkCollisionRow vtxZ mult spher (mMagField st)) st in
    let '(st2, tmpIDtrack) := fold_left trackStep tracks (st1, []) in
    let st3 :=
      if ConfStoreV0 cfg then
        fold_left (v0Step col tmpIDtrack) fullV0s st2
      else st2 in
    if ConfStorePhi cfg then
      fold_left (phiStep col tmpIDtrack) (combinations tracks) st3
    else st3.

Definition processProd (st : Task) (col : Collision) (tracks : list Track)
    (fullV0s : list V0) : option Task :=
  match updateMagField st col with
  | None => None
  | Some st1 => Some (produce st1 col tracks fullV0s)
  end.

End Producer.

(** ** The emission order, stated from the specification

    The definitions of this section follow the specification's words: the
    event record first, then the accepted tracks in input order, then one
    triple (two children, then the parent pointing at them) per accepted
    V0 in input order, then one triple per accepted pair in pair order.
    They are compared with [produce] below. *)

(** Several [outputParts] calls in a row. *)
Definition appendRows (st : Task) (rows : list ParticleRow) : Task :=
  mkTask (mRunNumber st) (mMagField st) (grpo st) (ccdbQueries st)
         (emitted st ++ map EmitParticle rows).

(** Rows of successive candidates; [next] is the index the next row
    written will get. *)
Fixpoint triplesFrom {A : Type} (triple : Z -> A -> list ParticleRow)
    (next : Z) (l : list A) : list ParticleRow :=
  match l with
  | [] => []
  | a :: rest =>
      triple next a
      ++ triplesFrom triple (next + Z.of_nat (length (triple next a))) rest
  end.

Section EmissionOrderSpec.

Variable cfg : Config.
Variable ext : Collaborators.
Variable col : Collision.

(** The event record of an accepted event. *)
Definition eventRow (magField : Q) (tracks : list Track) : CollisionRow :=
  mkCollisionRow (posZ col)
                 (if ConfIsRun3 cfg then multFT0M col else multFV0M col)
                 (colCuts_computeSphericity ext col tracks)
                 magField.

(** The event record of a rejected event in trigger mode. *)
Definition rejectedEventRow (magField : Q) (tracks : list Track)
  : CollisionRow :=
  mkCollisionRow (posZ col) (multFV0M col)
                 (colCuts_computeSphericity ext col tracks) magField.

Definition acceptedTracks (tracks : list Track) : list Track :=
  filter (trackCuts_isSelectedMinimal ext) tracks.

(** The daughter-index map: the identifiers of the accepted tracks, in
    the order their rows are written. *)
Definition daughterIndexMap (tracks : list Track) : list Z :=
  map (fun t => to_int (globalIndex t)) (acceptedTracks tracks).

(** The rows of one V0: none, or two children and the parent whose
    child indices are [next] and [next + 1]. *)
Definition v0Triple (collisionId : Z) (tmpIDtrack : list Z) (next : Z)
    (v0 : V0) : list ParticleRow :=
  let cc := v0Cuts_getCutContainer ext col v0 (posTrack v0) (negTrack v0) in
  if v0Cuts_isSelectedMinimal ext col v0 (posTrack v0) (negTrack v0)
     && v0Accepted cc
  then
    [ v0PosChildRow collisionId cc
        (getRowDaughters (to_int (posTrackId v0)) tmpIDtrack) v0;
      v0NegChildRow collisionId cc
        (getRowDaughters (to_int (negTrackId v0)) tmpIDtrack) v0;
      v0ParentRow ext collisionId cc col
        (to_int next) (to_int (next + 1)) v0 ]
  else [].

(** The pair survives the gates and the mass window. *)
Definition phiAccepted (p1 p2 : Track) : bool :=
  phiGates cfg ext p1 p2
  && negb (Qltb (lv_M ext (sumVec ext p1 p2)) (ConfInvMassLowLimitPhi cfg)
           || Qgtb (lv_M ext (sumVec ext p1 p2))
                   (ConfInvMassUpLimitPhi cfg)).

(** The rows of one pair. *)
Definition phiTriple (collisionId : Z) (tmpIDtrack : list Z) (next : Z)
    (pr : Track * Track) : list ParticleRow :=
  let cc := PhiCuts_getCutContainer ext col (fst pr) (snd pr) in
  if phiAccepted (fst pr) (snd pr) then
    [ phiPosChildRow ext collisionId cc
        (getRowDaughters (to_int (globalIndex (fst pr))) tmpIDtrack)
        (fst pr);
      phiNegChildRow ext collisionId cc
        (getRowDaughters (to_int (globalIndex (snd pr))) tmpIDtrack)
        (snd pr);
      phiParentRow ext collisionId cc
        (to_int next) (to_int (next + 1)) (fst pr) (snd pr) ]
  else [].

(** The particle rows of an accepted event, in the order the
    specification fixes; [collisionId] is the index of the event record
    and [next] the index of the first row to be written. *)
Definition emissionOrder_spec (collisionId next : Z)
    (tracks : list Track) (fullV0s : list V0) : list ParticleRow :=
  let tmpIDtrack := daughterIndexMap tracks in
  let trackPart := map (trackRow collisionId) (acceptedTracks tracks) in
  let v0Start := next + Z.of_nat (length trackPart) in
  let v0Part :=
    if ConfStoreV0 cfg then
      triplesFrom (v0Triple collisionId tmpIDtrack) v0Start fullV0s
    else [] in
  let phiStart := v0Start + Z.of_nat (length v0Part) in
  let phiPart :=
    if ConfStorePhi cfg then
      triplesFrom (phiTriple collisionId tmpIDtrack) phiStart
                  (combinations tracks)
    else [] in
  trackPart ++ v0Part ++ phiPart.

End EmissionOrderSpec.

Definition isParent (r : ParticleRow) : bool :=
  match r_partType r with
  | kV0 | kPhi => true
  | _ => false
  end.

Definition isTrackRow (r : ParticleRow) : bool :=
  match r_partType r with
  | kTrack => true
  | _ => false
  end.

(** [c] has the child type that goes with the parent [par]. *)
Definition isChildOf (par c : ParticleRow) : bool :=
  match r_partType par, r_partType c with
  | kV0, kV0Child | kPhi, kPhiChild => true
  | _, _ => false
  end.

(** In the table [T], every parent row at an index [i >= from] has its two
    children written just before it, at [i - 2] and [i - 1], not before
    [from], and points at exactly these two rows. *)
Definition childrenBeforeParent (T : list ParticleRow) (from : nat) : Prop :=
  forall (i : nat) (par : ParticleRow),
    (from <= i)%nat ->
    nth_error T i = Some par ->
    isParent par = true ->
    exists c1 c2,
      (from + 2 <= i)%nat
      /\ nth_error T (i - 2) = Some c1
      /\ nth_error T (i - 1) = Some c2
      /\ isChildOf par c1 = true
      /\ isChildOf par c2 = true
      /\ r_childrenIds par
         = (to_int (Z.of_nat (i - 2)), to_int (Z.of_nat (i - 1))).

(** The same, for the parent rows at the indices [from <= i < upto]. *)
Definition linkedBetween (T : list ParticleRow) (from upto : nat) : Prop :=
  forall (i : nat) (par : ParticleRow),
    (from <= i < upto)%nat ->
    nth_error T i = Some par ->
    isParent par = true ->
    exists c1 c2,
      (from + 2 <= i)%nat
      /\ nth_error T (i - 2) = Some c1
      /\ nth_error T (i - 1) = Some c2
      /\ isChildOf par c1 = true
      /\ isChildOf par c2 = true
      /\ r_childrenIds par
         = (to_int (Z.of_nat (i - 2)), to_int (Z.of_nat (i - 1))).

(** A candidate writes nothing, or two children and then the parent that
    holds the indices [next] and [next + 1]. *)
Definition tripleShape {A : Type} (triple : Z -> A -> list ParticleRow)
  : Prop :=
  forall (next : Z) (a : A),
    triple next a = []
    \/ exists c1 c2 par,
        triple next a = [c1; c2; par]
        /\ isParent c1 = false
        /\ isParent c2 = false
        /\ isParent par = true
        /\ isChildOf par c1 = true
        /\ isChildOf par c2 = true
        /\ r_childrenIds par = (to_int next, to_int (next + 1)).

(** ** Sample inputs

    Concrete collaborators and rows on which the statements below are
    evaluated. *)

(** A rational approximation of [hypot], exact on Pythagorean inputs. *)
Definition hypotApprox (x y : Q) : Q :=
  let s := (x * x + y * y)%Q in
  Qmake (Z.sqrt (Qnum s * Zpos (Qden s) * 1000000000000))
        (Qden s * 1000000).

Definition sampleTrack (gi : Z) (mom : Q) (nsTPC nsTOF : Q) : Track :=
  mkTrack gi TT_Track mom 0%Q 0%Q mom 1 1%Q 1%Q 1%Q nsTPC nsTOF
          100 120 90 0 mom 7 3 0%Q 0%Q 50%Q
          0 0 0 0 0 0 0 0 0 0.

(** Collaborators built from an event selection [sel], the cut container
    [cc] every V0 gets and a conditions database [db]: the minimal track
    selection accepts the tracks of positive pt, every V0 passes its
    minimal selection, and the Phi selection, which [init] configures with
    no selection at all, leaves every bit unset.  ROOT's vector routines
    are replaced by stand-ins that keep the four arguments as components
    and read the mass of a sum off its last component, so that two legs
    of kaon mass land inside the default mass window. *)
Definition sampleCollab (sel : Collision -> bool) (cc : CutContainer)
    (db : Z -> option GRPObject) : Collaborators :=
  mkCollaborators
    sel
    (fun _ _ => 1%Q)
    (fun t => Qltb 0 (pt t))
    (fun _ _ _ _ => true)
    (fun _ _ _ _ => cc)
    (fun _ _ _ => mkCutContainer 0 0 0 0 0)
    (fun _ _ _ _ => 1%Q)
    hypotApprox
    (fun _ => (493677 # 1000000)%Q)
    (fun a b c m => mkLV a b c m)
    (fun v => fY v)
    (fun v => fZ v)
    (fun v => fX v)
    (fun v => fX v)
    (fun v => (fE v + (2 # 100))%Q)
    db.

Definition sampleCollision (run ts : Z) : Collision :=
  mkCollision (mkBC run ts) 0%Q 0%Q 1%Q 10%Q 12%Q.

Definition noCCDB : Z -> option GRPObject := fun _ => None.

Definition plainCollab : Collaborators :=
  sampleCollab (fun _ => true) (mkCutContainer 1 1 0 1 0) noCCDB.

(** A conditions database that knows two timestamps, with opposite field
    polarities. *)
Definition sampleDB (ts : Z) : option GRPObject :=
  if ts =? 100 then Some (mkGRP 5)
  else if ts =? 200 then Some (mkGRP (-5))
  else None.

(** Collaborators with [sampleDB] whose event selection accepts. *)
Definition acceptingCollab : Collaborators :=
  sampleCollab (fun _ => true) (mkCutContainer 1 1 0 1 0) sampleDB.

(** Collaborators with [sampleDB] whose event selection rejects. *)
Definition rejectingCollab : Collaborators :=
  sampleCollab (fun _ => false) (mkCutContainer 1 1 0 1 0) sampleDB.

(** The default configuration in trigger mode. *)
Definition triggerConfig : Config :=
  mkConfig true false true true false
           (1005 # 1000) (1035 # 1000) true (5 # 1) (5 # 1).

(** [initTask] after the field refresh for run 7 at timestamp 100. *)
Definition refreshedTask : Task :=
  mkTask 7 ((1 # 10) * inject_Z 5)%Q (Some (mkGRP 5)) [100] [].

(** Collaborators whose V0 selection leaves the positive daughter's
    bitmap at zero. *)
Definition zeroPosCollab : Collaborators :=
  sampleCollab (fun _ => true) (mkCutContainer 1 0 0 1 0) noCCDB.

(** Three tracks: two kaon candidates and one track of zero momentum that
    the minimal track selection of [sampleCollab] rejects. *)
Definition sampleTracks : list Track :=
  [ sampleTrack 10 (3 # 10) 0 0;
    sampleTrack 11 (5 # 10) 0 3;
    sampleTrack 12 0 0 0 ].

(** A V0 whose positive daughter is track 10 and whose negative daughter
    is the rejected track 12; the daughter momenta at the decay vertex are
    the V0's own columns. *)
Definition sampleV0 : V0 :=
  mkV0 10 12 (sampleTrack 10 (3 # 10) 0 0) (sampleTrack 12 0 0 0)
       1 (1 # 10) (2 # 10) (1 # 2) (-1 # 10) 3
       (3 # 2) 0 1 (1115 # 1000) (1116 # 1000).

(** The default configuration with the kaon TPC+TOF switch turned off. *)
Definition configNoTPCTOF : Config :=
  mkConfig false false true true false
           (1005 # 1000) (1035 # 1000) false (5 # 1) (5 # 1).

(** ** A run of events

    The framework calls [processProd] once per collision, in table order;
    the fatal log of [getMagneticFieldTesla] ends the run. *)

Record Event : Type := mkEvent {
  ev_col : Collision;
  ev_tracks : list Track;
  ev_fullV0s : list V0
}.

Fixpoint runEvents (cfg : Config) (ext : Collaborators) (st : Task)
    (events : list Event) : option Task :=
  match events with
  | [] => Some st
  | e :: rest =>
      match processProd cfg ext st (ev_col e) (ev_tracks e) (ev_fullV0s e)
      with
      | None => None
      | Some st1 => runEvents cfg ext st1 rest
      end
  end.

(** The V0 goes through both tests of the V0 loop. *)
Definition v0Pass (ext : Collaborators) (col : Collision) (v0 : V0) : bool :=
  v0Cuts_isSelectedMinimal ext col v0 (posTrack v0) (negTrack v0)
  && v0Accepted
       (v0Cuts_getCutContainer ext col v0 (posTrack v0) (negTrack v0)).

(** The state of the field cache: nothing fetched yet, or one object
    fetched by one query and the field derived from it. *)
Definition fieldCacheInv (ext : Collaborators) (st : Task) : Prop :=
  (grpo st = None /\ ccdbQueries st = [] /\ mMagField st = 0%Q)
  \/ exists g ts,
      grpo st = Some g
      /\ ccdbQueries st = [ts]
      /\ ccdb_getForTimeStamp ext ts = Some g
      /\ mMagField st = ((1 # 10) * inject_Z (getNominalL3Field g))%Q.

(** Every particle row of the log points at the event record written last
    before it. *)
Definition pointsAtOwnEvent (log : list Emission) : Prop :=
  forall (a b : list Emission) (r : ParticleRow),
    log = a ++ EmitParticle r :: b ->
    collisionRows a <> []
    /\ r_collisionId r = Z.of_nat (length (collisionRows a)) - 1.

(** What one call of [processProd] writes, from the indices of the rows
    written last before the call and the field it records. *)
Definition callLog (cfg : Config) (ext : Collaborators)
    (lastCollision lastParticle : Z) (magField : Q) (col : Collision)
    (tracks : list Track) (fullV0s : list V0) : list Emission :=
  if colCuts_isSelected ext col then
    EmitCollision (eventRow cfg ext col magField tracks)
    :: map EmitParticle
         (emissionOrder_spec cfg ext col (lastCollision + 1)
            (lastParticle + 1) tracks fullV0s)
  else if ConfIsTrigger cfg then
    [EmitCollision (rejectedEventRow ext col magField tracks)]
  else [].

(** The check behind [pointsAtOwnEvent], run along the log; [n] counts the
    event records passed so far. *)
Fixpoint linkedFrom (n : nat) (log : list Emission) : Prop :=
  match log with
  | [] => True
  | EmitCollision _ :: rest => linkedFrom (S n) rest
  | EmitParticle r :: rest =>
      (0 < n)%nat /\ r_collisionId r = Z.of_nat n - 1 /\ linkedFrom n rest
  end.

(** The bounds a [uint8_t] column keeps. *)
Definition uint8_range (z : Z) : Prop := 0 <= z < 256.

(** A track whose cluster counts, 300 and -1, do not fit 8 bits. *)
Definition wideCountTrack : Track :=
  mkTrack 10 TT_Track (3 # 10) 0 0 (3 # 10) 1 1 1 1 0 0
          300 120 (-1) 0 1 7 3 0 0 50 0 0 0 0 0 0 0 0 0 0.

(** Two events of two runs, for [sampleDB]. *)
Definition sampleEvents : list Event :=
  [ mkEvent (sampleCollision 7 100) sampleTracks [sampleV0];
    mkEvent (sampleCollision 8 200) sampleTracks [] ].

(** The default configuration with both kaon thresholds raised to 6. *)
Definition looseKaonConfig : Config :=
  mkConfig false false true true false
           (1005 # 1000) (1035 # 1000) true (6 # 1) (6 # 1).

(** * MultiplicityCounter ([dndeta-hi.cxx])

    The counting task writes nothing but histogram fills; the registry is
    modelled by the list of the fills made, in call order.  The members
    [usedTracksIds] and [tracketas] live across calls. *)

Module MultiplicityCounter.

(** The event-class and trigger-class enumerators. *)
Definition kECbegin : Z := 0.
Definition kDATA : Z := 1.
Definition kINEL : Z := 2.
Definition kECend : Z := 3.
Definition kTrigbegin : Z := 0.
Definition kMBAND : Z := 1.
Definition kTrigend : Z := 2.

Inductive HistName : Type :=
| EventsSelection
| hrecdndeta
| hgendndeta
| hreczvtx
| hgenzvtx.

(** One [registry.fill] call: the histogram and the values passed. *)
Definition Fill : Type := (HistName * list Q)%type.

(** A row of [FullBCs]; the two fields are the bits [kIsBBT0A] and
    [kIsBBT0C] of [selection()]. *)
Record FullBC : Type := mkFullBC {
  bc_globalIndex : Z;
  isBBT0A : bool;
  isBBT0C : bool
}.

(** A row of [soa::Join<aod::Collisions, aod::EvSels>]. *)
Record Collision : Type := mkCollision {
  sel8 : bool;
  posZ : Q;
  has_foundBC : bool;
  foundBCId : Z;
  bcId : Z
}.

(** A row of [FiTracks] or of [aod::MFTTracks]. *)
Record Track : Type := mkTrack {
  globalIndex : Z;
  eta : Q
}.

(** A row of the reassigned tracks
    ([soa::Join<aod::AmbiguousMFTTracks, aod::BestCollisionsFwd>]). *)
Record AmbiguousTrack : Type := mkAmbiguousTrack {
  mfttrackId : Z;
  etas : Q
}.

Record Counter : Type := mkCounter {
  usedTracksIds : list Z;
  tracketas : list Q;
  registry : list Fill
}.

Definition fill (h : HistName) (values : list Q) (st : Counter) : Counter :=
  mkCounter (usedTracksIds st) (tracketas st) (registry st ++ [(h, values)]).

(** [std::find(usedTracksIds.begin(), usedTracksIds.end(), id) != end()]. *)
Definition isUsed (st : Counter) (id : Z) : bool :=
  existsb (Z.eqb id) (usedTracksIds st).

Section Processes.

Variable useEvSel : bool.

(** *** processEventStat *)

(** The inner loop over the collisions: [cols] after it. *)
Definition collectCols (bc : FullBC) (collisions : list Collision)
  : list Collision :=
  fold_left
    (fun cols collision =>
       if has_foundBC collision then
         if foundBCId collision =? bc_globalIndex bc
         then cols ++ [collision] else cols
       else if bcId collision =? bc_globalIndex bc
            then cols ++ [collision] else cols)
    collisions [].

Definition eventStatStep (collisions : list Collision) (st : Counter)
    (bc : FullBC) : Counter :=
  if negb useEvSel || (isBBT0A bc && isBBT0C bc) then
    let st1 := fill EventsSelection [5%Q] st in
    let cols := collectCols bc collisions in
    if negb (match cols with [] => true | _ => false end) then
      let st2 := fill EventsSelection [6%Q] st1 in
      if (1 <? length cols)%nat then fill EventsSelection [7%Q] st2
      else st2
    else st1
  else st.

Definition processEventStat (bcs : list FullBC)
    (collisions : list Collision) (st : Counter) : Counter :=
  fold_left (eventStatStep collisions) bcs st.

(** *** processCounting *)

Definition processCounting (collision : Collision) (tracks : list Track)
    (atracks : list AmbiguousTrack) (st : Counter) : Counter :=
  let st0 := fill EventsSelection [1%Q] st in
  if negb useEvSel || sel8 collision then
    let st1 := fill EventsSelection [2%Q] st0 in
    let z := posZ collision in
    let st2 :=
      fill hreczvtx [inject_Z kDATA; inject_Z kMBAND; 50%Q; z] st1 in
    (* usedTracksIds.clear(); tracketas.clear() *)
    let st3 := mkCounter [] [] (registry st2) in
    let st4 :=
      fold_left
        (fun s track =>
           mkCounter (usedTracksIds s) (tracketas s ++ [etas track])
                     (registry s))
        atracks st3 in
    let st5 :=
      fold_left
        (fun s track =>
           if isUsed s (globalIndex track) then s
           else mkCounter (usedTracksIds s) (tracketas s ++ [eta track])
                          (registry s))
        tracks st4 in
    fold_left
      (fun s eta_ =>
         fill hrecdndeta
              [inject_Z kINEL; inject_Z kMBAND; 50%Q; z; eta_] s)
      (tracketas st5) st5
  else st0.

(** *** processForwardCounting *)

Definition processForwardCounting (collision : Collision)
    (tracks : list Track) (atracks : list AmbiguousTrack) (st : Counter)
  : Counter :=
  if negb useEvSel || (useEvSel && sel8 collision) then
    (* usedTracksIds.clear() *)
    let st1 := mkCounter [] (tracketas st) (registry st) in
    let z := posZ collision in
    let st2 :=
      fold_left
        (fun s track =>
           fill hrecdndeta [1%Q; 1%Q; 50%Q; z; etas track]
                (mkCounter (usedTracksIds s ++ [to_int (mfttrackId track)])
                           (tracketas s) (registry s)))
        atracks st1 in
    fold_left
      (fun s track =>
         if isUsed s (globalIndex track) then s
         else fill hrecdndeta [1%Q; 1%Q; 50%Q; z; eta track] s)
      tracks st2
  else st.

End Processes.

(** The fills of [Events/Selection] with the given status. *)
Definition selectionCount (status : Q) (reg : list Fill) : nat :=
  length
    (filter (fun f : Fill =>
               match f with
               | (EventsSelection, [v]) => Qeq_bool v status
               | _ => false
               end) reg).


(** The bunch crossing a collision is attached to. *)
Definition collisionBC (c : Collision) : Z :=
  if has_foundBC c then foundBCId c else bcId c.

(** The bunch crossing passes the test that opens the loop body. *)
Definition goodBC (useEvSel : bool) (bc : FullBC) : bool :=
  negb useEvSel || (isBBT0A bc && isBBT0C bc).

(** The collisions attached to a bunch crossing. *)
Definition collisionsOf (bc : FullBC) (collisions : list Collision)
  : list Collision :=
  filter (fun c => collisionBC c =? bc_globalIndex bc) collisions.

(** The fills one bunch crossing causes in [processEventStat]. *)
Definition statFills (useEvSel : bool) (collisions : list Collision)
    (bc : FullBC) : list Fill :=
  if goodBC useEvSel bc then
    (EventsSelection, [5%Q])
    :: match collisionsOf bc collisions with
       | [] => []
       | [_] => [(EventsSelection, [6%Q])]
       | _ :: _ :: _ => [(EventsSelection, [6%Q]); (EventsSelection, [7%Q])]
       end
  else [].

Definition emptyCounter : Counter := mkCounter [] [] [].

(** A counter that carries identifiers and etas of an earlier call. *)
Definition staleCounter : Counter :=
  mkCounter [1; 2; 3] [1 # 2] [(hgenzvtx, [2%Q; 50%Q; 0%Q])].



Definition sampleBCs : list FullBC :=
  [ mkFullBC 0 true true; mkFullBC 1 true false; mkFullBC 2 true true ].

Definition sampleCollisions : list Collision :=
  [ mkCollision true 1 true 0 5; mkCollision true 2 false 9 0;
    mkCollision false 3 false 9 2 ].

End MultiplicityCounter.

(** * Properties *)

(** ** Arithmetic and comparison lemmas *)

Lemma Qltb_lt (x y : Q) : Qltb x y = true <-> (x < y)%Q.
Proof.
  unfold Qltb. rewrite negb_true_iff.
  split; intro H.
  - apply Qnot_le_lt. intro Hle. apply Qle_bool_iff in Hle. congruence.
  - destruct (Qle_bool y x) eqn:E; [|reflexivity].
    apply Qle_bool_iff in E. exfalso. apply (Qlt_not_le _ _ H E).
Qed.

Lemma Qltb_ge (x y : Q) : Qltb x y = false <-> (y <= x)%Q.
Proof.
  unfold Qltb. rewrite negb_false_iff. apply Qle_bool_iff.
Qed.

Lemma to_int_id (z : Z) : int_range z -> to_int z = z.
Proof.
  unfold int_range, to_int. intro H.
  rewrite Z.mod_small by lia. lia.
Qed.

(** ** The kaon gate *)

Section KaonGate.

Variable cfg : Config.
Variable ext : Collaborators.

Lemma IsKaonNSigma_switch_off mom tpc tof :
  ConfNsigmaTPCTOFKaon cfg = false ->
  IsKaonNSigma cfg ext mom tpc tof = false.
Proof. unfold IsKaonNSigma. now intros ->. Qed.

Lemma IsKaonNSigma_low mom tpc tof :
  ConfNsigmaTPCTOFKaon cfg = true ->
  (mom < 4 # 10)%Q ->
  IsKaonNSigma cfg ext mom tpc tof
  = Qltb (Qabs tpc) (ConfNsigmaTPCKaon cfg).
Proof.
  intros Hsw Hlt. unfold IsKaonNSigma. rewrite Hsw.
  apply Qltb_lt in Hlt. rewrite Hlt.
  now destruct (Qltb (Qabs tpc) (ConfNsigmaTPCKaon cfg)).
Qed.

Lemma IsKaonNSigma_high mom tpc tof :
  ConfNsigmaTPCTOFKaon cfg = true ->
  (4 # 10 < mom)%Q ->
  IsKaonNSigma cfg ext mom tpc tof
  = Qltb (TMath_Hypot ext tof tpc) (ConfNsigmaCombinedKaon cfg).
Proof.
  intros Hsw Hgt. unfold IsKaonNSigma, Qgtb. rewrite Hsw.
  assert (Hlo : Qltb mom (4 # 10) = false)
    by (apply Qltb_ge; now apply Qlt_le_weak).
  apply Qltb_lt in Hgt. rewrite Hlo, Hgt.
  now destruct (Qltb _ (ConfNsigmaCombinedKaon cfg)).
Qed.

(** A pair one of whose legs fails the gate leaves the task untouched,
    whatever the mass routines would return. *)
Lemma phiStep_failing_leg col tmpIDtrack st p1 p2 :
  IsKaonNSigma cfg ext (p p1) (tpcNSigmaKa p1) (tofNSigmaKa p1) = false
  \/ IsKaonNSigma cfg ext (p p2) (tpcNSigmaKa p2) (tofNSigmaKa p2) = false ->
  phiStep cfg ext col tmpIDtrack st (p1, p2) = st.
Proof.
  intro H. unfold phiStep.
  assert (Hg : phiGates cfg ext p1 p2 = false).
  { unfold phiGates.
    destruct H as [H|H]; rewrite H; cbn [negb];
      repeat match goal with
             | |- (if ?c then false else _) = false =>
                 destruct c; [reflexivity|]
             end; reflexivity. }
  now rewrite Hg.
Qed.

End KaonGate.

(** No [float] lies between 0.4 and the [double] the literal denotes,
    ends included. *)
Lemma no_float_near_0_4 (q : Q) :
  isFloat32 q -> (q < 4 # 10)%Q \/ (double_0_4 < q)%Q.
Proof.
  intros (m & e & Hm & He & Hq).
  assert (HC : Zpos (2 ^ 149)%positive = 2 ^ 149) by reflexivity.
  destruct (Z_le_gt_dec e (-26)) as [Hlow|Hhigh].
  - left. rewrite Hq. unfold Qlt. cbn [Qnum Qden]. rewrite HC.
    assert (HP : 0 < 2 ^ (e + 149) <= 2 ^ 123).
    { split; [apply Z.pow_pos_nonneg; lia|].
      apply Z.pow_le_mono_r; lia. }
    assert (Hb : m * 2 ^ (e + 149) <= 2 ^ 24 * 2 ^ 123).
    { destruct (Z_le_gt_dec m 0) as [Hn|Hp].
      - assert (m * 2 ^ (e + 149) <= 0) by (apply Z.mul_nonpos_nonneg; lia).
        assert (0 < 2 ^ 24 * 2 ^ 123) by reflexivity. lia.
      - apply Z.mul_le_mono_nonneg; lia. }
    assert (Hc : 2 ^ 24 * 2 ^ 123 * 10 < 4 * 2 ^ 149) by reflexivity.
    lia.
  - rewrite Hq. unfold Qlt, double_0_4. cbn [Qnum Qden]. rewrite HC.
    replace (e + 149) with ((e + 25) + 124) by lia.
    rewrite Z.pow_add_r by lia.
    set (K := m * 2 ^ (e + 25)).
    replace (m * (2 ^ (e + 25) * 2 ^ 124)) with (K * 2 ^ 124)
      by (subst K; ring).
    assert (H124 : 2 ^ 149 = 33554432 * 2 ^ 124) by reflexivity.
    rewrite H124.
    assert (Hpos : 0 < 2 ^ 124) by reflexivity.
    generalize dependent (2 ^ 124). intros c _ Hc.
    destruct (Z_le_gt_dec K 13421772) as [Hk|Hk]; [left|right]; nia.
Qed.

Lemma float_0_4_isFloat32 : isFloat32 float_0_4.
Proof.
  exists 13421773, (-25). split; [reflexivity|]. split; [lia|reflexivity].
Qed.

(** C10, as stated, fails: a momentum of 0.4 is, as a [float], the value
    0.4f, which lies within half a unit in the last place of 0.4 and above
    the literal; the gate takes the combined branch and answers [true]. *)
Lemma kaon_gate_at_0_4f_counterexample :
  isFloat32 float_0_4
  /\ (Qabs (float_0_4 - (4 # 10)) <= 1 # 67108864)%Q
  /\ (double_0_4 < float_0_4)%Q
  /\ IsKaonNSigma defaultConfig plainCollab float_0_4 0 0 = true.
Proof.
  split; [exact float_0_4_isFloat32|].
  split; [discriminate|]. split; reflexivity.
Qed.

(** C10, amended.  With the switch [ConfNsigmaTPCTOFKaon] off the gate
    answers [false] on every input.  With the switch on it is total over
    the [float] momenta: no [float] equals the literal 0.4, neither as the
    decimal nor as the [double] it denotes, the two give the same
    comparisons, and every [float] momentum is decided by the TPC test
    (below) or by the combined test (above). *)
Theorem IsKaonNSigma_switch_and_floats :
  forall (cfg : Config) (ext : Collaborators) (mom tpc tof : Q),
    (ConfNsigmaTPCTOFKaon cfg = false ->
     IsKaonNSigma cfg ext mom tpc tof = false)
    /\ (isFloat32 mom ->
        ((mom < 4 # 10)%Q \/ (4 # 10 < mom)%Q)
        /\ ((mom < 4 # 10)%Q <-> (mom < double_0_4)%Q)
        /\ ((4 # 10 < mom)%Q <-> (double_0_4 < mom)%Q)
        /\ (ConfNsigmaTPCTOFKaon cfg = true ->
            IsKaonNSigma cfg ext mom tpc tof
            = if Qltb mom (4 # 10)
              then Qltb (Qabs tpc) (ConfNsigmaTPCKaon cfg)
              else Qltb (TMath_Hypot ext tof tpc)
                        (ConfNsigmaCombinedKaon cfg))).
Proof.
  intros cfg ext mom tpc tof. split.
  - apply IsKaonNSigma_switch_off.
  - intro Hf.
    assert (HD : (4 # 10 < double_0_4)%Q) by reflexivity.
    pose proof (no_float_near_0_4 mom Hf) as Hkey.
    assert (Hdis : (mom < 4 # 10)%Q \/ (4 # 10 < mom)%Q).
    { destruct Hkey as [H|H]; [now left|right].
      eapply Qlt_trans; eassumption. }
    split; [exact Hdis|]. split; [|split].
    + split; intro H.
      * eapply Qlt_trans; eassumption.
      * destruct Hkey as [H'|H']; [exact H'|].
        exfalso. apply (Qlt_irrefl mom). eapply Qlt_trans; eassumption.
    + split; intro H.
      * destruct Hkey as [H'|H']; [|exact H'].
        exfalso. apply (Qlt_irrefl mom). eapply Qlt_trans; eassumption.
      * eapply Qlt_trans; eassumption.
    + intro Hsw. destruct (Qltb mom (4 # 10)) eqn:E.
      * apply IsKaonNSigma_low; [exact Hsw|now apply Qltb_lt].
      * apply IsKaonNSigma_high; [exact Hsw|].
        destruct Hdis as [H|H]; [|exact H].
        apply Qltb_lt in H. congruence.
Qed.

Lemma IsKaonNSigma_switch_and_floats_witness :
  IsKaonNSigma configNoTPCTOF plainCollab (3 # 10) 0 0 = false
  /\ ((4 # 10 < float_0_4)%Q <-> (double_0_4 < float_0_4)%Q)
  /\ IsKaonNSigma defaultConfig plainCollab float_0_4 3 4
     = (if Qltb float_0_4 (4 # 10)
        then Qltb (Qabs 3) (ConfNsigmaTPCKaon defaultConfig)
        else Qltb (TMath_Hypot plainCollab 4 3)
                  (ConfNsigmaCombinedKaon defaultConfig)).
Proof.
  split; [|split].
  - apply (proj1 (IsKaonNSigma_switch_and_floats
                    configNoTPCTOF plainCollab (3 # 10) 0 0)).
    reflexivity.
  - apply (proj2 (IsKaonNSigma_switch_and_floats
                    defaultConfig plainCollab float_0_4 3 4)).
    exists 13421773, (-25). split; [reflexivity|]. split; [lia|reflexivity].
  - apply (proj2 (IsKaonNSigma_switch_and_floats
                    defaultConfig plainCollab float_0_4 3 4)).
    + exists 13421773, (-25). split; [reflexivity|]. split; [lia|reflexivity].
    + reflexivity.
Defined.

(** C2, as stated, fails: with the switch off a leg below 0.4 whose TPC
    n-sigma is inside the threshold does not pass the gate. *)
Lemma kaon_gate_switch_off_counterexample :
  (3 # 10 < 4 # 10)%Q
  /\ (Qabs 0 < ConfNsigmaTPCKaon configNoTPCTOF)%Q
  /\ IsKaonNSigma configNoTPCTOF plainCollab (3 # 10) 0 0 = false.
Proof. repeat split. Qed.

(** C2, amended.  With [ConfNsigmaTPCTOFKaon] on, a leg passes the kaon
    gate exactly when [|nsigma_TPC| < ConfNsigmaTPCKaon] for momentum below
    0.4 and exactly when
    [hypot(nsigma_TOF, nsigma_TPC) < ConfNsigmaCombinedKaon] for momentum
    above 0.4; and, whatever the switch, a pair with a failing leg is
    dropped with nothing written, independently of the mass routines. *)
Theorem kaon_gate_characterisation :
  forall (cfg : Config) (ext : Collaborators),
    (ConfNsigmaTPCTOFKaon cfg = true ->
     forall mom tpc tof,
       ((mom < 4 # 10)%Q ->
        (IsKaonNSigma cfg ext mom tpc tof = true
         <-> (Qabs tpc < ConfNsigmaTPCKaon cfg)%Q))
       /\ ((4 # 10 < mom)%Q ->
           (IsKaonNSigma cfg ext mom tpc tof = true
            <-> (TMath_Hypot ext tof tpc < ConfNsigmaCombinedKaon cfg)%Q)))
    /\ (forall col tmpIDtrack st p1 p2,
          IsKaonNSigma cfg ext (p p1) (tpcNSigmaKa p1) (tofNSigmaKa p1)
          = false
          \/ IsKaonNSigma cfg ext (p p2) (tpcNSigmaKa p2) (tofNSigmaKa p2)
             = false ->
          phiStep cfg ext col tmpIDtrack st (p1, p2) = st).
Proof.
  intros cfg ext. split.
  - intros Hsw mom tpc tof. split; intro Hm.
    + rewrite (IsKaonNSigma_low cfg ext mom tpc tof Hsw Hm).
      apply Qltb_lt.
    + rewrite (IsKaonNSigma_high cfg ext mom tpc tof Hsw Hm).
      apply Qltb_lt.
  - intros. now apply phiStep_failing_leg.
Qed.

Lemma kaon_gate_characterisation_witness :
  (IsKaonNSigma defaultConfig plainCollab (3 # 10) 1 0 = true
   <-> (Qabs 1 < ConfNsigmaTPCKaon defaultConfig)%Q)
  /\ (IsKaonNSigma defaultConfig plainCollab (1 # 2) 3 4 = true
      <-> (TMath_Hypot plainCollab 4 3
           < ConfNsigmaCombinedKaon defaultConfig)%Q)
  /\ phiStep defaultConfig plainCollab (sampleCollision 1 1) [] initTask
       (sampleTrack 0 (3 # 10) 6 0, sampleTrack 1 (3 # 10) 0 0)
     = initTask.
Proof.
  pose proof (kaon_gate_characterisation defaultConfig plainCollab)
    as [Hgate Hdrop].
  split; [|split].
  - apply (proj1 (Hgate eq_refl (3 # 10) 1%Q 0%Q)). reflexivity.
  - apply (proj2 (Hgate eq_refl (1 # 2) 3%Q 4%Q)). reflexivity.
  - apply Hdrop. left. reflexivity.
Defined.

(** ** The output cursors *)

Lemma particleRows_app (a b : list Emission) :
  particleRows (a ++ b) = particleRows a ++ particleRows b.
Proof.
  induction a as [|[r|r] a IH]; simpl; [reflexivity | assumption |].
  now rewrite IH.
Qed.

Lemma collisionRows_app (a b : list Emission) :
  collisionRows (a ++ b) = collisionRows a ++ collisionRows b.
Proof.
  induction a as [|[r|r] a IH]; simpl; [reflexivity | | assumption].
  now rewrite IH.
Qed.

Lemma particleRows_EmitParticle (rows : list ParticleRow) :
  particleRows (map EmitParticle rows) = rows.
Proof. induction rows as [|r rows IH]; simpl; congruence. Qed.

Lemma collisionRows_EmitParticle (rows : list ParticleRow) :
  collisionRows (map EmitParticle rows) = [].
Proof. induction rows as [|r rows IH]; simpl; congruence. Qed.

Lemma outputParts_appendRows (r : ParticleRow) (st : Task) :
  outputParts r st = appendRows st [r].
Proof. reflexivity. Qed.

Lemma appendRows_nil (st : Task) : appendRows st [] = st.
Proof. destruct st. unfold appendRows. simpl. now rewrite app_nil_r. Qed.

Lemma appendRows_app (st : Task) (a b : list ParticleRow) :
  appendRows (appendRows st a) b = appendRows st (a ++ b).
Proof.
  unfold appendRows. simpl. now rewrite map_app, app_assoc.
Qed.

Lemma particleRows_appendRows (st : Task) (rows : list ParticleRow) :
  particleRows (emitted (appendRows st rows))
  = particleRows (emitted st) ++ rows.
Proof.
  unfold appendRows. simpl.
  now rewrite particleRows_app, particleRows_EmitParticle.
Qed.

Lemma lastIndex_parts_appendRows (st : Task) (rows : list ParticleRow) :
  outputParts_lastIndex (appendRows st rows)
  = outputParts_lastIndex st + Z.of_nat (length rows).
Proof.
  unfold outputParts_lastIndex.
  rewrite particleRows_appendRows, length_app. lia.
Qed.

Lemma lastIndex_collision_appendRows (st : Task) (rows : list ParticleRow) :
  outputCollision_lastIndex (appendRows st rows)
  = outputCollision_lastIndex st.
Proof.
  unfold outputCollision_lastIndex, appendRows. simpl.
  now rewrite collisionRows_app, collisionRows_EmitParticle, app_nil_r.
Qed.

Lemma lastIndex_collision_outputCollision (r : CollisionRow) (st : Task) :
  outputCollision_lastIndex (outputCollision r st)
  = outputCollision_lastIndex st + 1.
Proof.
  unfold outputCollision_lastIndex, outputCollision. simpl.
  rewrite collisionRows_app, length_app. simpl. lia.
Qed.

Lemma lastIndex_parts_outputCollision (r : CollisionRow) (st : Task) :
  outputParts_lastIndex (outputCollision r st) = outputParts_lastIndex st.
Proof.
  unfold outputParts_lastIndex, outputCollision. simpl.
  rewrite particleRows_app. simpl. now rewrite app_nil_r.
Qed.

(** ** Each loop body writes the rows the specification names *)

Section StepRows.

Variable cfg : Config.
Variable ext : Collaborators.
Variable col : Collision.
Variable tmpIDtrack : list Z.

Lemma v0Step_rows (st : Task) (v0 : V0) :
  v0Step ext col tmpIDtrack st v0
  = appendRows st
      (v0Triple ext col (outputCollision_lastIndex st) tmpIDtrack
                (outputParts_lastIndex st + 1) v0).
Proof.
  unfold v0Step, v0Triple.
  destruct (v0Cuts_isSelectedMinimal ext col v0 (posTrack v0) (negTrack v0));
    cbn [negb andb]; [|now rewrite appendRows_nil].
  destruct (v0Accepted _); [|now rewrite appendRows_nil].
  cbv zeta.
  rewrite !outputParts_appendRows, !appendRows_app.
  rewrite !lastIndex_collision_appendRows, !lastIndex_parts_appendRows.
  cbn [app length].
  replace (outputParts_lastIndex st + Z.of_nat 2)
    with (outputParts_lastIndex st + 1 + 1) by lia.
  reflexivity.
Qed.

Lemma phiStep_rows (st : Task) (pr : Track * Track) :
  phiStep cfg ext col tmpIDtrack st pr
  = appendRows st
      (phiTriple cfg ext col (outputCollision_lastIndex st) tmpIDtrack
                 (outputParts_lastIndex st + 1) pr).
Proof.
  destruct pr as [p1 p2].
  unfold phiStep, phiTriple, phiAccepted. cbn [fst snd].
  destruct (phiGates cfg ext p1 p2);
    cbn [negb andb]; [|now rewrite appendRows_nil].
  destruct (Qltb _ _ || Qgtb _ _);
    cbn [negb]; [now rewrite appendRows_nil|].
  unfold phiEmit. cbv zeta.
  rewrite !outputParts_appendRows, !appendRows_app.
  rewrite !lastIndex_collision_appendRows, !lastIndex_parts_appendRows.
  cbn [app length].
  replace (outputParts_lastIndex st + Z.of_nat 2)
    with (outputParts_lastIndex st + 1 + 1) by lia.
  reflexivity.
Qed.

End StepRows.

(** A loop whose body writes [triple next a] writes [triplesFrom]. *)
Lemma fold_left_rows {A : Type} (step : Task -> A -> Task)
    (triple : Z -> A -> list ParticleRow) (k : Z) :
  (forall st a,
      outputCollision_lastIndex st = k ->
      step st a = appendRows st (triple (outputParts_lastIndex st + 1) a)) ->
  forall (l : list A) (st : Task),
    outputCollision_lastIndex st = k ->
    fold_left step l st
    = appendRows st (triplesFrom triple (outputParts_lastIndex st + 1) l).
Proof.
  intros Hstep l. induction l as [|a l IH]; intros st Hk; simpl.
  - now rewrite appendRows_nil.
  - rewrite (Hstep st a Hk).
    rewrite IH by (now rewrite lastIndex_collision_appendRows).
    rewrite appendRows_app, lastIndex_parts_appendRows.
    do 3 f_equal. lia.
Qed.

Lemma fold_left_trackStep (ext : Collaborators) (tracks : list Track) :
  forall (st : Task) (ids : list Z),
    fold_left (trackStep ext) tracks (st, ids)
    = (appendRows st
         (map (trackRow (outputCollision_lastIndex st))
              (acceptedTracks ext tracks)),
       ids ++ daughterIndexMap ext tracks).
Proof.
  unfold daughterIndexMap, acceptedTracks.
  induction tracks as [|t tracks IH]; intros st ids; simpl.
  - now rewrite appendRows_nil, app_nil_r.
  - destruct (trackCuts_isSelectedMinimal ext t); cbn [negb].
    + rewrite IH. rewrite outputParts_appendRows, appendRows_app.
      rewrite lastIndex_collision_appendRows.
      simpl. now rewrite <- app_assoc.
    + apply IH.
Qed.

(** The body of [processProd] on an accepted event. *)
Lemma produce_accepted (cfg : Config) (ext : Collaborators) (st : Task)
    (col : Collision) (tracks : list Track) (fullV0s : list V0) :
  colCuts_isSelected ext col = true ->
  produce cfg ext st col tracks fullV0s
  = appendRows
      (outputCollision (eventRow cfg ext col (mMagField st) tracks) st)
      (emissionOrder_spec cfg ext col
         (outputCollision_lastIndex st + 1) (outputParts_lastIndex st + 1)
         tracks fullV0s).
Proof.
  intro Hsel. unfold produce. rewrite Hsel. cbn [negb]. cbv zeta.
  set (st1 := if ConfIsRun3 cfg then _ else _).
  assert (Hst1 : st1
                 = outputCollision (eventRow cfg ext col (mMagField st) tracks)
                                   st).
  { subst st1. unfold eventRow. now destruct (ConfIsRun3 cfg). }
  rewrite Hst1. clear st1 Hst1.
  set (st1 := outputCollision _ st).
  assert (Hc : outputCollision_lastIndex st1 = outputCollision_lastIndex st + 1)
    by apply lastIndex_collision_outputCollision.
  assert (Hp : outputParts_lastIndex st1 = outputParts_lastIndex st)
    by apply lastIndex_parts_outputCollision.
  rewrite fold_left_trackStep. cbn [app].
  rewrite Hc.
  unfold emissionOrder_spec.
  set (k := outputCollision_lastIndex st + 1) in *.
  set (tmp := daughterIndexMap ext tracks).
  set (trackPart := map (trackRow k) (acceptedTracks ext tracks)).
  set (st2 := appendRows st1 trackPart).
  assert (Hc2 : outputCollision_lastIndex st2 = k)
    by (subst st2; now rewrite lastIndex_collision_appendRows).
  assert (Hp2 : outputParts_lastIndex st2 + 1
                = outputParts_lastIndex st + 1 + Z.of_nat (length trackPart))
    by (subst st2; rewrite lastIndex_parts_appendRows; lia).
  set (v0Part := if ConfStoreV0 cfg then _ else []).
  set (st3 := if ConfStoreV0 cfg then _ else st2).
  assert (H3 : st3 = appendRows st2 v0Part).
  { subst st3 v0Part. destruct (ConfStoreV0 cfg).
    - rewrite (fold_left_rows (v0Step ext col tmp) (v0Triple ext col k tmp) k).
      + now rewrite Hp2.
      + intros s a Hs. rewrite v0Step_rows. now rewrite Hs.
      + exact Hc2.
    - now rewrite appendRows_nil. }
  assert (Hc3 : outputCollision_lastIndex st3 = k)
    by (rewrite H3; now rewrite lastIndex_collision_appendRows).
  assert (Hp3 : outputParts_lastIndex st3 + 1
                = outputParts_lastIndex st + 1 + Z.of_nat (length trackPart)
                  + Z.of_nat (length v0Part))
    by (rewrite H3, lastIndex_parts_appendRows; lia).
  assert (H4 : (if ConfStorePhi cfg
                then fold_left (phiStep cfg ext col tmp)
                               (combinations tracks) st3
                else st3)
               = appendRows st3
                   (if ConfStorePhi cfg
                    then triplesFrom (phiTriple cfg ext col k tmp)
                           (outputParts_lastIndex st + 1
                            + Z.of_nat (length trackPart)
                            + Z.of_nat (length v0Part))
                           (combinations tracks)
                    else [])).
  { destruct (ConfStorePhi cfg).
    - rewrite (fold_left_rows (phiStep cfg ext col tmp)
                              (phiTriple cfg ext col k tmp) k).
      + now rewrite Hp3.
      + intros s a Hs. rewrite phiStep_rows. now rewrite Hs.
      + exact Hc3.
    - now rewrite appendRows_nil. }
  rewrite H4, H3. subst st2.
  now rewrite !appendRows_app.
Qed.

Lemma produce_accepted_emitted (cfg : Config) (ext : Collaborators)
    (st : Task) (col : Collision) (tracks : list Track) (fullV0s : list V0) :
  colCuts_isSelected ext col = true ->
  emitted (produce cfg ext st col tracks fullV0s)
  = emitted st
    ++ EmitCollision (eventRow cfg ext col (mMagField st) tracks)
    :: map EmitParticle
         (emissionOrder_spec cfg ext col
            (outputCollision_lastIndex st + 1)
            (outputParts_lastIndex st + 1) tracks fullV0s).
Proof.
  intro Hsel. rewrite (produce_accepted cfg ext st col tracks fullV0s Hsel).
  unfold appendRows, outputCollision. simpl.
  now rewrite <- app_assoc.
Qed.

(** ** Children come before the parent that points at them *)

Lemma v0Triple_shape (ext : Collaborators) (col : Collision)
    (collisionId : Z) (tmpIDtrack : list Z) :
  tripleShape (v0Triple ext col collisionId tmpIDtrack).
Proof.
  intros next v0. unfold v0Triple.
  destruct (_ && _); [right|now left].
  do 3 eexists. split; [reflexivity|]. now repeat split.
Qed.

Lemma phiTriple_shape (cfg : Config) (ext : Collaborators) (col : Collision)
    (collisionId : Z) (tmpIDtrack : list Z) :
  tripleShape (phiTriple cfg ext col collisionId tmpIDtrack).
Proof.
  intros next pr. unfold phiTriple.
  destruct (phiAccepted _ _ _ _); [right|now left].
  do 3 eexists. split; [reflexivity|]. now repeat split.
Qed.

Lemma linkedBetween_triples {A : Type}
    (triple : Z -> A -> list ParticleRow) (suf : list ParticleRow) :
  tripleShape triple ->
  forall (l : list A) (pre : list ParticleRow),
    linkedBetween
      (pre ++ triplesFrom triple (Z.of_nat (length pre)) l ++ suf)
      (length pre)
      (length pre + length (triplesFrom triple (Z.of_nat (length pre)) l)).
Proof.
  intros Hshape l. induction l as [|a l IH]; intro pre.
  - simpl. intros i par Hi. lia.
  - cbn [triplesFrom].
    destruct (Hshape (Z.of_nat (length pre)) a)
      as [E|(c1 & c2 & par & E & Hc1 & Hc2 & Hpar & Hk1 & Hk2 & Hids)];
      rewrite E.
    + cbn [app length]. rewrite Z.add_0_r. apply IH.
    + cbn [app length].
      replace (Z.of_nat (length pre) + Z.of_nat 3)
        with (Z.of_nat (length (pre ++ [c1; c2; par])))
        by (rewrite length_app; cbn [length]; lia).
      specialize (IH (pre ++ [c1; c2; par])).
      set (rest := triplesFrom triple
                     (Z.of_nat (length (pre ++ [c1; c2; par]))) l) in *.
      rewrite <- app_assoc in IH.
      rewrite length_app in IH. cbn [app length] in IH.
      intros i row Hi Hnth Hrow.
      assert (Hcases : (i = length pre \/ i = length pre + 1
                        \/ i = length pre + 2 \/ length pre + 3 <= i)%nat)
        by lia.
      assert (N0 : nth_error (pre ++ c1 :: c2 :: par :: rest ++ suf)
                             (length pre) = Some c1).
      { rewrite nth_error_app2 by lia. now rewrite Nat.sub_diag. }
      assert (N1 : nth_error (pre ++ c1 :: c2 :: par :: rest ++ suf)
                             (length pre + 1) = Some c2).
      { rewrite nth_error_app2 by lia.
        now replace (length pre + 1 - length pre)%nat with 1%nat by lia. }
      assert (N2 : nth_error (pre ++ c1 :: c2 :: par :: rest ++ suf)
                             (length pre + 2) = Some par).
      { rewrite nth_error_app2 by lia.
        now replace (length pre + 2 - length pre)%nat with 2%nat by lia. }
      destruct Hcases as [->|[->|[->|Hge]]].
      * rewrite N0 in Hnth. injection Hnth as <-. congruence.
      * rewrite N1 in Hnth. injection Hnth as <-. congruence.
      * rewrite N2 in Hnth. injection Hnth as <-.
        exists c1, c2.
        replace (length pre + 2 - 2)%nat with (length pre) by lia.
        replace (length pre + 2 - 1)%nat with (length pre + 1)%nat by lia.
        repeat split; try assumption; try lia.
        rewrite Hids. do 2 f_equal. lia.
      * destruct (IH i row) as (d1 & d2 & Hd); [lia|exact Hnth|exact Hrow|].
        exists d1, d2.
        destruct Hd as (G1 & G2 & G3 & G4 & G5 & G6).
        repeat split; try assumption; lia.
Qed.

Lemma linkedBetween_join (T : list ParticleRow) (a b c : nat) :
  (a <= b)%nat ->
  linkedBetween T a b -> linkedBetween T b c -> linkedBetween T a c.
Proof.
  intros Hab H1 H2 i par Hi Hnth Hpar.
  destruct (Nat.lt_ge_cases i b) as [Hlt|Hge].
  - apply H1; [lia|assumption|assumption].
  - destruct (H2 i par) as (c1 & c2 & G1 & G); [lia|assumption|assumption|].
    exists c1, c2. split; [lia|exact G].
Qed.

Lemma linkedBetween_no_parent (T : list ParticleRow) (a b : nat) :
  (forall i r, (a <= i < b)%nat -> nth_error T i = Some r ->
               isParent r = false) ->
  linkedBetween T a b.
Proof.
  intros H i par Hi Hnth Hpar.
  rewrite (H i par Hi Hnth) in Hpar. discriminate.
Qed.

Lemma linkedBetween_all (T : list ParticleRow) (from : nat) :
  linkedBetween T from (length T) -> childrenBeforeParent T from.
Proof.
  intros H i par Hi Hnth Hpar.
  apply H; [|assumption|assumption].
  split; [assumption|].
  apply nth_error_Some. congruence.
Qed.

Lemma linkedBetween_empty (T : list ParticleRow) (a : nat) :
  linkedBetween T a a.
Proof. intros i par Hi. lia. Qed.

Lemma trackRows_no_parent (k : Z) (l : list Track) (r : ParticleRow) :
  In r (map (trackRow k) l) -> r_partType r = kTrack.
Proof.
  intro H. apply in_map_iff in H. destruct H as (t & <- & _). reflexivity.
Qed.

(** The table after an accepted event keeps every parent behind its two
    children. *)
Lemma emissionOrder_spec_linked (cfg : Config) (ext : Collaborators)
    (col : Collision) (k : Z) (pre : list ParticleRow)
    (tracks : list Track) (fullV0s : list V0) :
  childrenBeforeParent
    (pre ++ emissionOrder_spec cfg ext col k (Z.of_nat (length pre))
                               tracks fullV0s)
    (length pre).
Proof.
  unfold emissionOrder_spec.
  set (tmp := daughterIndexMap ext tracks).
  set (trackPart := map (trackRow k) (acceptedTracks ext tracks)).
  replace (Z.of_nat (length pre) + Z.of_nat (length trackPart))
    with (Z.of_nat (length (pre ++ trackPart)))
    by (rewrite length_app; lia).
  set (v0Part := if ConfStoreV0 cfg then _ else []).
  replace (Z.of_nat (length (pre ++ trackPart)) + Z.of_nat (length v0Part))
    with (Z.of_nat (length ((pre ++ trackPart) ++ v0Part)))
    by (rewrite !length_app; lia).
  set (phiPart := if ConfStorePhi cfg then _ else []).
  set (T := pre ++ trackPart ++ v0Part ++ phiPart).
  apply linkedBetween_all.
  assert (HT : length T
               = (length pre + length trackPart + length v0Part
                  + length phiPart)%nat)
    by (subst T; rewrite !length_app; lia).
  rewrite HT.
  apply (linkedBetween_join T _ (length pre + length trackPart)); [lia| |].
  - apply linkedBetween_no_parent. intros i r Hi Hnth.
    subst T. rewrite nth_error_app2 in Hnth by lia.
    rewrite nth_error_app1 in Hnth by lia.
    apply nth_error_In in Hnth.
    unfold isParent. now rewrite (trackRows_no_parent _ _ _ Hnth).
  - apply (linkedBetween_join T _
             (length pre + length trackPart + length v0Part)); [lia| |].
    + subst v0Part. destruct (ConfStoreV0 cfg).
      * subst T. rewrite app_assoc, <- length_app.
        apply linkedBetween_triples, v0Triple_shape.
      * cbn [length]. rewrite Nat.add_0_r. apply linkedBetween_empty.
    + subst phiPart. destruct (ConfStorePhi cfg).
      * subst T.
        replace (pre ++ trackPart ++ v0Part ++
                 triplesFrom (phiTriple cfg ext col k tmp)
                   (Z.of_nat (length ((pre ++ trackPart) ++ v0Part)))
                   (combinations tracks))
          with (((pre ++ trackPart) ++ v0Part) ++
                triplesFrom (phiTriple cfg ext col k tmp)
                  (Z.of_nat (length ((pre ++ trackPart) ++ v0Part)))
                  (combinations tracks) ++ [])
          by (rewrite app_nil_r, <- !app_assoc; reflexivity).
        replace (length pre + length trackPart + length v0Part)%nat
          with (length ((pre ++ trackPart) ++ v0Part))
          by (rewrite !length_app; lia).
        apply linkedBetween_triples, phiTriple_shape.
      * cbn [length]. rewrite Nat.add_0_r. apply linkedBetween_empty.
Qed.

(** ** The field refresh writes no rows *)

Lemma updateMagField_emitted (ext : Collaborators) (st st1 : Task)
    (col : Collision) :
  updateMagField ext st col = Some st1 -> emitted st1 = emitted st.
Proof.
  unfold updateMagField, getMagneticFieldTesla.
  destruct (negb _); [|now intros [= <-]].
  destruct (grpo st).
  - now intros [= <-].
  - destruct (ccdb_getForTimeStamp ext _); [|discriminate].
    now intros [= <-].
Qed.

(** C6.  For an accepted event, what [processProd] writes is, in this
    order: the event record, then the rows the specification lists
    (accepted tracks in input order, V0 triples in V0 order, pair triples
    in pair order); and in the particle table every parent written for the
    event comes right after its two children and points at them. *)
Theorem emission_order_refines_spec :
  forall (cfg : Config) (ext : Collaborators) (st st1 : Task)
         (col : Collision) (tracks : list Track) (fullV0s : list V0),
    updateMagField ext st col = Some st1 ->
    colCuts_isSelected ext col = true ->
    exists st',
      processProd cfg ext st col tracks fullV0s = Some st'
      /\ emitted st'
         = emitted st
           ++ EmitCollision (eventRow cfg ext col (mMagField st1) tracks)
           :: map EmitParticle
                (emissionOrder_spec cfg ext col
                   (outputCollision_lastIndex st + 1)
                   (outputParts_lastIndex st + 1) tracks fullV0s)
      /\ childrenBeforeParent
           (particleRows (emitted st'))
           (length (particleRows (emitted st))).
Proof.
  intros cfg ext st st1 col tracks fullV0s Hmag Hsel.
  exists (produce cfg ext st1 col tracks fullV0s).
  unfold processProd. rewrite Hmag. split; [reflexivity|].
  pose proof (updateMagField_emitted ext st st1 col Hmag) as Hem.
  assert (Hc : outputCollision_lastIndex st1 = outputCollision_lastIndex st)
    by (unfold outputCollision_lastIndex; now rewrite Hem).
  assert (Hp : outputParts_lastIndex st1 = outputParts_lastIndex st)
    by (unfold outputParts_lastIndex; now rewrite Hem).
  split.
  - rewrite (produce_accepted_emitted cfg ext st1 col tracks fullV0s Hsel).
    now rewrite Hem, Hc, Hp.
  - rewrite (produce_accepted cfg ext st1 col tracks fullV0s Hsel).
    rewrite particleRows_appendRows.
    unfold outputCollision. cbn [emitted].
    rewrite particleRows_app. cbn [particleRows]. rewrite app_nil_r.
    rewrite Hem.
    replace (outputParts_lastIndex st1 + 1)
      with (Z.of_nat (length (particleRows (emitted st))))
      by (rewrite Hp; unfold outputParts_lastIndex; lia).
    apply emissionOrder_spec_linked.
Qed.

Lemma emission_order_refines_spec_witness :
  exists st',
    processProd defaultConfig acceptingCollab initTask
                (sampleCollision 7 100) sampleTracks [sampleV0] = Some st'
    /\ emitted st'
       = emitted initTask
         ++ EmitCollision
              (eventRow defaultConfig acceptingCollab (sampleCollision 7 100)
                        (mMagField refreshedTask) sampleTracks)
         :: map EmitParticle
              (emissionOrder_spec defaultConfig acceptingCollab
                 (sampleCollision 7 100)
                 (outputCollision_lastIndex initTask + 1)
                 (outputParts_lastIndex initTask + 1)
                 sampleTracks [sampleV0])
    /\ childrenBeforeParent
         (particleRows (emitted st'))
         (length (particleRows (emitted initTask))).
Proof.
  apply (emission_order_refines_spec defaultConfig acceptingCollab initTask
           refreshedTask).
  - reflexivity.
  - reflexivity.
Defined.

(** ** Rejected events *)

Lemma produce_rejected (cfg : Config) (ext : Collaborators) (st : Task)
    (col : Collision) (tracks : list Track) (fullV0s : list V0) :
  colCuts_isSelected ext col = false ->
  emitted (produce cfg ext st col tracks fullV0s)
  = emitted st
    ++ (if ConfIsTrigger cfg
        then [EmitCollision (rejectedEventRow ext col (mMagField st) tracks)]
        else []).
Proof.
  intro Hsel. unfold produce. rewrite Hsel. cbn [negb].
  destruct (ConfIsTrigger cfg).
  - reflexivity.
  - now rewrite app_nil_r.
Qed.

(** C8.  An event the event selector rejects writes, in trigger mode,
    exactly one event record (z-vertex, multiplicity, sphericity, magnetic
    field) and no particle row; outside trigger mode it writes nothing. *)
Theorem rejected_event_output :
  forall (cfg : Config) (ext : Collaborators) (st st1 : Task)
         (col : Collision) (tracks : list Track) (fullV0s : list V0),
    updateMagField ext st col = Some st1 ->
    colCuts_isSelected ext col = false ->
    exists st',
      processProd cfg ext st col tracks fullV0s = Some st'
      /\ emitted st'
         = emitted st
           ++ (if ConfIsTrigger cfg
               then [EmitCollision
                       (mkCollisionRow (posZ col) (multFV0M col)
                          (colCuts_computeSphericity ext col tracks)
                          (mMagField st1))]
               else [])
      /\ particleRows (emitted st') = particleRows (emitted st).
Proof.
  intros cfg ext st st1 col tracks fullV0s Hmag Hsel.
  exists (produce cfg ext st1 col tracks fullV0s).
  unfold processProd. rewrite Hmag. split; [reflexivity|].
  rewrite (produce_rejected cfg ext st1 col tracks fullV0s Hsel).
  rewrite (updateMagField_emitted ext st st1 col Hmag).
  split; [reflexivity|].
  rewrite particleRows_app.
  destruct (ConfIsTrigger cfg); simpl; now rewrite app_nil_r.
Qed.

Lemma rejected_event_output_witness :
  exists st',
    processProd triggerConfig rejectingCollab initTask
                (sampleCollision 7 100) sampleTracks [sampleV0] = Some st'
    /\ emitted st'
       = emitted initTask
         ++ (if ConfIsTrigger triggerConfig
             then [EmitCollision
                     (mkCollisionRow (posZ (sampleCollision 7 100))
                        (multFV0M (sampleCollision 7 100))
                        (colCuts_computeSphericity rejectingCollab
                           (sampleCollision 7 100) sampleTracks)
                        (mMagField refreshedTask))]
             else [])
    /\ particleRows (emitted st') = particleRows (emitted initTask).
Proof.
  apply (rejected_event_output triggerConfig rejectingCollab initTask
           refreshedTask).
  - reflexivity.
  - reflexivity.
Defined.

(** ** Track rows *)

Lemma triplesFrom_not_track {A : Type}
    (triple : Z -> A -> list ParticleRow) :
  tripleShape triple ->
  forall (l : list A) (next : Z) (r : ParticleRow),
    In r (triplesFrom triple next l) -> r_partType r <> kTrack.
Proof.
  intros Hshape l. induction l as [|a l IH]; intros next r Hin.
  - destruct Hin.
  - cbn [triplesFrom] in Hin. apply in_app_or in Hin.
    destruct Hin as [Hin|Hin]; [|now apply (IH _ _ Hin)].
    destruct (Hshape next a)
      as [E|(c1 & c2 & par & E & _ & _ & Hpar & Hk1 & Hk2 & _)];
      rewrite E in Hin; [destruct Hin|].
    unfold isParent, isChildOf in *.
    destruct Hin as [<-|[<-|[<-|[]]]]; intro Ht; rewrite Ht in *;
      try discriminate;
      destruct (r_partType par); discriminate.
Qed.

Lemma emissionOrder_spec_track_row (cfg : Config) (ext : Collaborators)
    (col : Collision) (k next : Z) (tracks : list Track)
    (fullV0s : list V0) (r : ParticleRow) :
  In r (emissionOrder_spec cfg ext col k next tracks fullV0s) ->
  r_partType r = kTrack ->
  In r (map (trackRow k) (acceptedTracks ext tracks)).
Proof.
  unfold emissionOrder_spec. intros Hin Ht.
  apply in_app_or in Hin. destruct Hin as [Hin|Hin]; [assumption|].
  exfalso. apply in_app_or in Hin. destruct Hin as [Hin|Hin].
  - destruct (ConfStoreV0 cfg); [|destruct Hin].
    now apply (triplesFrom_not_track _ (v0Triple_shape ext col k _) _ _ _ Hin).
  - destruct (ConfStorePhi cfg); [|destruct Hin].
    now apply (triplesFrom_not_track _ (phiTriple_shape cfg ext col k _)
                 _ _ _ Hin).
Qed.

Lemma triplesFrom_no_track_rows {A : Type}
    (triple : Z -> A -> list ParticleRow) :
  tripleShape triple ->
  forall (l : list A) (next : Z),
    filter isTrackRow (triplesFrom triple next l) = [].
Proof.
  intros Hshape l next.
  assert (H : forall r, In r (triplesFrom triple next l) ->
                        isTrackRow r = false).
  { intros r Hin. pose proof (triplesFrom_not_track _ Hshape _ _ _ Hin).
    unfold isTrackRow. destruct (r_partType r); congruence. }
  induction (triplesFrom triple next l) as [|r rows IH]; [reflexivity|].
  simpl. rewrite (H r) by now left.
  apply IH. intros r' Hr'. apply H. now right.
Qed.

Lemma emissionOrder_spec_track_rows (cfg : Config) (ext : Collaborators)
    (col : Collision) (k next : Z) (tracks : list Track)
    (fullV0s : list V0) :
  filter isTrackRow (emissionOrder_spec cfg ext col k next tracks fullV0s)
  = map (trackRow k) (filter (trackCuts_isSelectedMinimal ext) tracks).
Proof.
  unfold emissionOrder_spec, acceptedTracks. rewrite !filter_app.
  assert (Ht : forall l, filter isTrackRow (map (trackRow k) l)
                         = map (trackRow k) l).
  { induction l as [|t l IH]; [reflexivity|]. simpl. now rewrite IH. }
  rewrite Ht.
  assert (Hv : filter isTrackRow
                 (if ConfStoreV0 cfg
                  then triplesFrom
                         (v0Triple ext col k (daughterIndexMap ext tracks))
                         (next
                          + Z.of_nat
                              (length
                                 (map (trackRow k)
                                    (filter (trackCuts_isSelectedMinimal ext)
                                            tracks)))) fullV0s
                  else []) = []).
  { destruct (ConfStoreV0 cfg); [|reflexivity].
    apply triplesFrom_no_track_rows, v0Triple_shape. }
  unfold acceptedTracks in *. rewrite Hv.
  destruct (ConfStorePhi cfg); [|now rewrite app_nil_r].
  rewrite triplesFrom_no_track_rows by apply phiTriple_shape.
  now rewrite app_nil_r.
Qed.

(** C9.  Every row of type Track that a call of [processProd] writes is the
    row of an input track that passed the minimal track selection, and its
    selection-bitmap and PID-bitmap columns are both 0.  The minimal
    selection alone decides: for an accepted event the Track rows written
    are, in input order, the rows of exactly the tracks that pass it; a
    rejected event writes no particle row. *)
Theorem track_rows_have_zero_bitmaps :
  forall (cfg : Config) (ext : Collaborators) (st st' : Task)
         (col : Collision) (tracks : list Track) (fullV0s : list V0),
    processProd cfg ext st col tracks fullV0s = Some st' ->
    exists new,
      emitted st' = emitted st ++ new
      /\ (forall r,
            In (EmitParticle r) new ->
            r_partType r = kTrack ->
            r_cut r = 0%N /\ r_pidcut r = 0%N
            /\ exists track,
                In track tracks
                /\ trackCuts_isSelectedMinimal ext track = true
                /\ (r_pt r, r_eta r, r_phi r)
                   = (pt track, eta track, phi track))
      /\ (colCuts_isSelected ext col = true ->
          filter isTrackRow (particleRows new)
          = map (trackRow (outputCollision_lastIndex st + 1))
                (filter (trackCuts_isSelectedMinimal ext) tracks))
      /\ (colCuts_isSelected ext col = false -> particleRows new = []).
Proof.
  intros cfg ext st st' col tracks fullV0s Hrun.
  unfold processProd in Hrun.
  destruct (updateMagField ext st col) as [st1|] eqn:Hmag; [|discriminate].
  injection Hrun as <-.
  pose proof (updateMagField_emitted ext st st1 col Hmag) as Hem.
  assert (Hc : outputCollision_lastIndex st1 = outputCollision_lastIndex st)
    by (unfold outputCollision_lastIndex; now rewrite Hem).
  rewrite <- Hem, <- Hc.
  destruct (colCuts_isSelected ext col) eqn:Hsel.
  - eexists. split; [apply (produce_accepted_emitted _ _ _ _ _ _ Hsel)|].
    split; [|split; [|discriminate]].
    + intros r Hin Ht.
      destruct Hin as [Hin|Hin]; [discriminate|].
      apply in_map_iff in Hin. destruct Hin as (r' & [= ->] & Hin).
      apply (emissionOrder_spec_track_row _ _ _ _ _ _ _ _ Hin) in Ht.
      apply in_map_iff in Ht. destruct Ht as (t & <- & Ht).
      unfold acceptedTracks in Ht. apply filter_In in Ht.
      repeat split; try reflexivity. exists t. now repeat split.
    + intros _. cbn [particleRows].
      rewrite particleRows_EmitParticle.
      apply emissionOrder_spec_track_rows.
  - eexists. split; [apply (produce_rejected _ _ _ _ _ _ Hsel)|].
    split; [|split; [discriminate|]].
    + intros r Hin. destruct (ConfIsTrigger cfg); simpl in Hin.
      * destruct Hin as [Hin|[]]. discriminate.
      * destruct Hin.
    + intros _. now destruct (ConfIsTrigger cfg).
Qed.

Lemma track_rows_have_zero_bitmaps_witness :
  exists new,
    emitted (produce defaultConfig acceptingCollab refreshedTask
               (sampleCollision 7 100) sampleTracks [sampleV0])
    = emitted initTask ++ new
    /\ (forall r,
          In (EmitParticle r) new ->
          r_partType r = kTrack ->
          r_cut r = 0%N /\ r_pidcut r = 0%N
          /\ exists track,
              In track sampleTracks
              /\ trackCuts_isSelectedMinimal acceptingCollab track = true
              /\ (r_pt r, r_eta r, r_phi r)
                 = (pt track, eta track, phi track))
    /\ filter isTrackRow (particleRows new)
       = [ trackRow 0 (sampleTrack 10 (3 # 10) 0 0);
           trackRow 0 (sampleTrack 11 (5 # 10) 0 3) ].
Proof.
  destruct (track_rows_have_zero_bitmaps defaultConfig acceptingCollab
              initTask _ (sampleCollision 7 100) sampleTracks [sampleV0]
              eq_refl)
    as (new & Hnew & Hzero & Hall & _).
  exists new. split; [exact Hnew|]. split; [exact Hzero|].
  rewrite Hall by reflexivity. reflexivity.
Defined.

(** ** Composite candidates *)

Section Candidates.

Variable cfg : Config.
Variable ext : Collaborators.
Variable col : Collision.
Variable tmpIDtrack : list Z.

Lemma v0Accepted_iff (cc : CutContainer) :
  v0Accepted cc = true
  <-> (0 < at_ cc femtoWorldV0Selection.kV0
       /\ 0 < at_ cc femtoWorldV0Selection.kPosCuts
       /\ 0 < at_ cc femtoWorldV0Selection.kNegCuts)%N.
Proof.
  unfold v0Accepted. rewrite !andb_true_iff, !N.ltb_lt. tauto.
Qed.

Lemma v0Step_rejected (st : Task) (v0 : V0) :
  v0Accepted (v0Cuts_getCutContainer ext col v0 (posTrack v0) (negTrack v0))
  = false ->
  v0Step ext col tmpIDtrack st v0 = st.
Proof.
  intro H. unfold v0Step. rewrite H.
  now destruct (negb _).
Qed.

Lemma v0Step_accepted (st : Task) (v0 : V0) :
  v0Cuts_isSelectedMinimal ext col v0 (posTrack v0) (negTrack v0) = true ->
  v0Accepted (v0Cuts_getCutContainer ext col v0 (posTrack v0) (negTrack v0))
  = true ->
  let cc := v0Cuts_getCutContainer ext col v0 (posTrack v0) (negTrack v0) in
  v0Step ext col tmpIDtrack st v0
  = appendRows st
      [ v0PosChildRow (outputCollision_lastIndex st) cc
          (getRowDaughters (to_int (posTrackId v0)) tmpIDtrack) v0;
        v0NegChildRow (outputCollision_lastIndex st) cc
          (getRowDaughters (to_int (negTrackId v0)) tmpIDtrack) v0;
        v0ParentRow ext (outputCollision_lastIndex st) cc col
          (to_int (outputParts_lastIndex st + 1))
          (to_int (outputParts_lastIndex st + 1 + 1)) v0 ].
Proof.
  intros Hmin Hacc. rewrite v0Step_rows. unfold v0Triple.
  now rewrite Hmin, Hacc.
Qed.

Lemma phiStep_accepted (st : Task) (p1 p2 : Track) :
  phiAccepted cfg ext p1 p2 = true ->
  let cc := PhiCuts_getCutContainer ext col p1 p2 in
  phiStep cfg ext col tmpIDtrack st (p1, p2)
  = appendRows st
      [ phiPosChildRow ext (outputCollision_lastIndex st) cc
          (getRowDaughters (to_int (globalIndex p1)) tmpIDtrack) p1;
        phiNegChildRow ext (outputCollision_lastIndex st) cc
          (getRowDaughters (to_int (globalIndex p2)) tmpIDtrack) p2;
        phiParentRow ext (outputCollision_lastIndex st) cc
          (to_int (outputParts_lastIndex st + 1))
          (to_int (outputParts_lastIndex st + 1 + 1)) p1 p2 ].
Proof.
  intro Hacc. rewrite phiStep_rows. unfold phiTriple. cbn [fst snd].
  now rewrite Hacc.
Qed.

End Candidates.

(** C1, as stated, fails for Phi candidates: the pair below is written as
    three rows although all three of its selection bitmaps are zero. *)
Lemma phi_triple_with_zero_bitmaps_counterexample :
  let st' :=
    phiStep defaultConfig plainCollab (sampleCollision 1 1) [10; 11] initTask
            (sampleTrack 10 (3 # 10) 0 0, sampleTrack 11 (5 # 10) 0 3) in
  PhiCuts_getCutContainer plainCollab (sampleCollision 1 1)
    (sampleTrack 10 (3 # 10) 0 0) (sampleTrack 11 (5 # 10) 0 3)
  = mkCutContainer 0 0 0 0 0
  /\ map r_partType (particleRows (emitted st')) = [kPhiChild; kPhiChild; kPhi]
  /\ map r_cut (particleRows (emitted st')) = [0%N; 0%N; 0%N].
Proof. repeat split. Qed.

(** C1, amended.  A V0 candidate writes its triple only if its own
    selection bitmap and both daughters' bitmaps are strictly positive,
    and writes nothing if any of the three is zero.  A Phi candidate that
    passed the gates and the mass window writes its triple whatever its
    bitmaps are. *)
Theorem composite_storage_test :
  forall (cfg : Config) (ext : Collaborators) (col : Collision)
         (tmpIDtrack : list Z) (st : Task),
    (forall v0,
        let cc :=
          v0Cuts_getCutContainer ext col v0 (posTrack v0) (negTrack v0) in
        ((at_ cc femtoWorldV0Selection.kV0 = 0
          \/ at_ cc femtoWorldV0Selection.kPosCuts = 0
          \/ at_ cc femtoWorldV0Selection.kNegCuts = 0)%N ->
         v0Step ext col tmpIDtrack st v0 = st)
        /\ (emitted (v0Step ext col tmpIDtrack st v0) <> emitted st ->
            (0 < at_ cc femtoWorldV0Selection.kV0
             /\ 0 < at_ cc femtoWorldV0Selection.kPosCuts
             /\ 0 < at_ cc femtoWorldV0Selection.kNegCuts)%N
            /\ exists c1 c2 par,
                emitted (v0Step ext col tmpIDtrack st v0)
                = emitted st
                  ++ [EmitParticle c1; EmitParticle c2; EmitParticle par]))
    /\ (forall p1 p2,
          phiAccepted cfg ext p1 p2 = true ->
          exists c1 c2 par,
            emitted (phiStep cfg ext col tmpIDtrack st (p1, p2))
            = emitted st
              ++ [EmitParticle c1; EmitParticle c2; EmitParticle par]
            /\ r_cut c1
               = at_ (PhiCuts_getCutContainer ext col p1 p2)
                     femtoWorldV0Selection.kPosCuts
            /\ r_cut c2
               = at_ (PhiCuts_getCutContainer ext col p1 p2)
                     femtoWorldV0Selection.kNegCuts
            /\ r_cut par
               = at_ (PhiCuts_getCutContainer ext col p1 p2)
                     femtoWorldV0Selection.kV0).
Proof.
  intros cfg ext col tmpIDtrack st. split.
  - intros v0 cc. split.
    + intro Hzero. apply v0Step_rejected. fold cc.
      destruct (v0Accepted cc) eqn:E; [|reflexivity].
      apply v0Accepted_iff in E. lia.
    + intro Hne.
      destruct (v0Cuts_isSelectedMinimal ext col v0 (posTrack v0) (negTrack v0))
        eqn:Hmin.
      2:{ exfalso. apply Hne. unfold v0Step. now rewrite Hmin. }
      destruct (v0Accepted cc) eqn:Hacc.
      2:{ exfalso. apply Hne. now rewrite v0Step_rejected. }
      split; [now apply v0Accepted_iff|].
      rewrite (v0Step_accepted ext col tmpIDtrack st v0 Hmin Hacc).
      do 3 eexists. reflexivity.
  - intros p1 p2 Hacc.
    rewrite (phiStep_accepted cfg ext col tmpIDtrack st p1 p2 Hacc).
    do 3 eexists. split; [reflexivity|]. now repeat split.
Qed.

Lemma composite_storage_test_witness :
  v0Step zeroPosCollab (sampleCollision 1 1) [10; 11] initTask sampleV0
  = initTask
  /\ (0 < at_ (v0Cuts_getCutContainer plainCollab (sampleCollision 1 1)
                 sampleV0 (posTrack sampleV0) (negTrack sampleV0))
               femtoWorldV0Selection.kV0)%N
  /\ exists c1 c2 par,
      emitted (phiStep defaultConfig plainCollab (sampleCollision 1 1)
                 [10; 11] initTask
                 (sampleTrack 10 (3 # 10) 0 0, sampleTrack 11 (5 # 10) 0 3))
      = emitted initTask
        ++ [EmitParticle c1; EmitParticle c2; EmitParticle par]
      /\ r_cut par = 0%N.
Proof.
  split; [|split].
  - apply (proj1 (composite_storage_test defaultConfig zeroPosCollab
                    (sampleCollision 1 1) [10; 11] initTask) sampleV0).
    right. left. reflexivity.
  - apply (proj1 (composite_storage_test defaultConfig plainCollab
                    (sampleCollision 1 1) [10; 11] initTask) sampleV0).
    discriminate.
  - destruct (proj2 (composite_storage_test defaultConfig plainCollab
                       (sampleCollision 1 1) [10; 11] initTask)
                (sampleTrack 10 (3 # 10) 0 0) (sampleTrack 11 (5 # 10) 0 3)
                eq_refl)
      as (c1 & c2 & par & H & _ & _ & Hpar).
    exists c1, c2, par. split; [exact H|exact Hpar].
Defined.

(** C5, as stated, fails on the kinematics: the first child row of the
    sample V0 carries the V0's own positive-daughter pt and phi, 1 and
    2/10, while the daughter track has pt 3/10 and phi 0. *)
Lemma v0_child_kinematics_counterexample :
  let rows :=
    particleRows
      (emitted (v0Step plainCollab (sampleCollision 1 1) [10; 11] initTask
                       sampleV0)) in
  map r_partType rows = [kV0Child; kV0Child; kV0]
  /\ map r_pt rows = [1%Q; (1 # 2)%Q; (3 # 2)%Q]
  /\ map r_phi rows = [(2 # 10)%Q; 3%Q; 1%Q]
  /\ pt (posTrack sampleV0) = (3 # 10)%Q
  /\ phi (posTrack sampleV0) = 0%Q
  /\ ~ (1 == 3 # 10)%Q
  /\ ~ (2 # 10 == 0)%Q.
Proof. repeat split; discriminate. Qed.

(** C5, amended.  An accepted V0 writes exactly three particle rows, two
    children and then the parent; the parent's two child-index fields are
    the [int] values of the indices of the two rows just written, hence
    these indices themselves as long as they fit an [int]; the children's
    pt, eta and phi are the V0 candidate's own positive- and
    negative-daughter columns. *)
Theorem accepted_v0_writes_triple :
  forall (ext : Collaborators) (col : Collision) (tmpIDtrack : list Z)
         (st : Task) (v0 : V0),
    v0Cuts_isSelectedMinimal ext col v0 (posTrack v0) (negTrack v0) = true ->
    v0Accepted (v0Cuts_getCutContainer ext col v0 (posTrack v0) (negTrack v0))
    = true ->
    exists c1 c2 par,
      emitted (v0Step ext col tmpIDtrack st v0)
      = emitted st ++ [EmitParticle c1; EmitParticle c2; EmitParticle par]
      /\ nth_error (particleRows (emitted (v0Step ext col tmpIDtrack st v0)))
                   (length (particleRows (emitted st))) = Some c1
      /\ nth_error (particleRows (emitted (v0Step ext col tmpIDtrack st v0)))
                   (length (particleRows (emitted st)) + 1) = Some c2
      /\ r_partType c1 = kV0Child
      /\ r_partType c2 = kV0Child
      /\ r_partType par = kV0
      /\ r_childrenIds par
         = (to_int (Z.of_nat (length (particleRows (emitted st)))),
            to_int (Z.of_nat (length (particleRows (emitted st))) + 1))
      /\ (int_range (Z.of_nat (length (particleRows (emitted st))) + 1) ->
          r_childrenIds par
          = (Z.of_nat (length (particleRows (emitted st))),
             Z.of_nat (length (particleRows (emitted st))) + 1))
      /\ (r_pt c1, r_eta c1, r_phi c1)
         = (positivept v0, positiveeta v0, positivephi v0)
      /\ (r_pt c2, r_eta c2, r_phi c2)
         = (negativept v0, negativeeta v0, negativephi v0).
Proof.
  intros ext col tmpIDtrack st v0 Hmin Hacc.
  rewrite (v0Step_accepted ext col tmpIDtrack st v0 Hmin Hacc).
  do 3 eexists.
  split; [reflexivity|].
  rewrite particleRows_appendRows.
  split.
  { rewrite nth_error_app2 by lia. rewrite Nat.sub_diag. reflexivity. }
  split.
  { rewrite nth_error_app2 by lia.
    replace (length (particleRows (emitted st)) + 1
             - length (particleRows (emitted st)))%nat with 1%nat by lia.
    reflexivity. }
  assert (Hids : r_childrenIds
                   (v0ParentRow ext (outputCollision_lastIndex st)
                      (v0Cuts_getCutContainer ext col v0 (posTrack v0)
                         (negTrack v0)) col
                      (to_int (outputParts_lastIndex st + 1))
                      (to_int (outputParts_lastIndex st + 1 + 1)) v0)
                 = (to_int (Z.of_nat (length (particleRows (emitted st)))),
                    to_int (Z.of_nat (length (particleRows (emitted st)))
                            + 1))).
  { cbn [v0ParentRow r_childrenIds]. unfold outputParts_lastIndex.
    do 2 f_equal; lia. }
  repeat split; try exact Hids.
  intro Hrange. rewrite Hids.
  unfold int_range in Hrange.
  rewrite !to_int_id by (unfold int_range; lia).
  reflexivity.
Qed.

Lemma accepted_v0_writes_triple_witness :
  exists c1 c2 par,
    emitted (v0Step plainCollab (sampleCollision 1 1) [10; 11] initTask
               sampleV0)
    = emitted initTask
      ++ [EmitParticle c1; EmitParticle c2; EmitParticle par]
    /\ r_partType par = kV0
    /\ r_childrenIds par = (0, 1)
    /\ (r_pt c1, r_eta c1, r_phi c1)
       = (positivept sampleV0, positiveeta sampleV0, positivephi sampleV0)
    /\ (r_pt c2, r_eta c2, r_phi c2)
       = (negativept sampleV0, negativeeta sampleV0, negativephi sampleV0).
Proof.
  destruct (accepted_v0_writes_triple plainCollab (sampleCollision 1 1)
              [10; 11] initTask sampleV0 eq_refl eq_refl)
    as (c1 & c2 & par & H & _ & _ & _ & _ & Hpar & _ & Hids & Hk1 & Hk2).
  exists c1, c2, par.
  split; [exact H|].
  split; [exact Hpar|].
  split; [|split; assumption].
  apply Hids. unfold int_range. simpl. lia.
Defined.

(** ** Daughter-index resolution *)








(** ** The pair enumeration *)

Section Combinations.

Context {A : Type}.

Lemma combinations_length_double (l : list A) :
  (2 * length (combinations l) = length l * (length l - 1))%nat.
Proof.
  induction l as [|x l IH]; [reflexivity|].
  cbn [combinations]. rewrite length_app, length_map.
  cbn [length]. rewrite Nat.sub_succ, Nat.sub_0_r.
  destruct l as [|y l]; [reflexivity|].
  cbn [length] in *. rewrite Nat.sub_succ, Nat.sub_0_r in IH. nia.
Qed.

Lemma combinations_length (l : list A) :
  length (combinations l) = (length l * (length l - 1) / 2)%nat.
Proof.
  rewrite <- combinations_length_double.
  rewrite Nat.mul_comm. symmetry. now apply Nat.div_mul.
Qed.

Lemma combinations_in_fst (l : list A) (a b : A) :
  In (a, b) (combinations l) -> In a l /\ In b l.
Proof.
  induction l as [|x l IH]; [intros []|].
  cbn [combinations]. intro H. apply in_app_or in H.
  destruct H as [H|H].
  - apply in_map_iff in H. destruct H as (y & [= <- <-] & Hy).
    split; [now left|now right].
  - destruct (IH H). split; now right.
Qed.

Lemma combinations_NoDup (l : list A) :
  NoDup l -> NoDup (combinations l).
Proof.
  induction 1 as [|x l Hx Hnd IH]; [constructor|].
  cbn [combinations]. apply NoDup_app.
  - apply NoDup_map_NoDup_ForallPairs; [|assumption].
    intros a b _ _ [= ->]. reflexivity.
  - exact IH.
  - intros [a b] Hin Hin'.
    apply in_map_iff in Hin. destruct Hin as (y & [= <- <-] & _).
    apply combinations_in_fst in Hin'. now destruct Hin'.
Qed.

Lemma combinations_distinct_keys {K : Type} (key : A -> K) (l : list A) :
  NoDup (map key l) ->
  forall a b, In (a, b) (combinations l) -> key a <> key b.
Proof.
  induction l as [|x l IH]; intros Hnd a b Hin; [destruct Hin|].
  cbn [map] in Hnd. apply NoDup_cons_iff in Hnd. destruct Hnd as [Hx Hnd].
  cbn [combinations] in Hin. apply in_app_or in Hin.
  destruct Hin as [Hin|Hin].
  - apply in_map_iff in Hin. destruct Hin as (y & [= <- <-] & Hy).
    intro E. apply Hx. rewrite E. now apply in_map.
  - now apply IH.
Qed.

Lemma map_nth_seq (l : list A) (d : A) :
  map (fun i => nth i l d) (seq 0 (length l)) = l.
Proof.
  induction l as [|x l IH]; [reflexivity|].
  cbn [length seq map nth]. f_equal.
  rewrite <- seq_shift, map_map. exact IH.
Qed.

End Combinations.

Lemma combinations_map {A B : Type} (f : A -> B) (l : list A) :
  combinations (map f l)
  = map (fun pr => (f (fst pr), f (snd pr))) (combinations l).
Proof.
  induction l as [|x l IH]; [reflexivity|].
  cbn [map combinations]. rewrite map_app, !map_map, IH. reflexivity.
Qed.

Lemma combinations_seq_in (len start i j : nat) :
  In (i, j) (combinations (seq start len))
  <-> (start <= i /\ i < j /\ j < start + len)%nat.
Proof.
  revert start. induction len as [|len IH]; intro start.
  - simpl. lia.
  - cbn [seq combinations]. rewrite in_app_iff, IH, in_map_iff.
    split.
    + intros [(y & [= <- <-] & Hy)|H].
      * apply in_seq in Hy. lia.
      * lia.
    + intros (H1 & H2 & H3).
      destruct (Nat.eq_dec i start) as [->|Hne].
      * left. exists j. split; [reflexivity|]. apply in_seq. lia.
      * right. lia.
Qed.

Lemma phiStep_same_track (cfg : Config) (ext : Collaborators)
    (col : Collision) (tmpIDtrack : list Z) (st : Task) (p1 p2 : Track) :
  globalIndex p1 = globalIndex p2 ->
  phiStep cfg ext col tmpIDtrack st (p1, p2) = st.
Proof.
  intro E. unfold phiStep.
  assert (Hg : phiGates cfg ext p1 p2 = false).
  { unfold phiGates. rewrite E, Z.eqb_refl. now destruct (_ || _). }
  now rewrite Hg.
Qed.

(** C7.  Over [N] tracks the pair loop visits [N * (N - 1) / 2] pairs:
    they are the pairs of rows at positions [i < j], every such pair of
    positions once; when the tracks' global indices are pairwise distinct
    no visited pair has two legs of equal global index, and in any case
    the loop body writes nothing for such a pair. *)
Theorem combinations_enumeration :
  forall (cfg : Config) (ext : Collaborators) (tracks : list Track),
    length (combinations tracks)
    = (length tracks * (length tracks - 1) / 2)%nat
    /\ (forall d,
          combinations tracks
          = map (fun ij => (nth (fst ij) tracks d, nth (snd ij) tracks d))
                (combinations (seq 0 (length tracks))))
    /\ NoDup (combinations (seq 0 (length tracks)))
    /\ (forall i j,
          In (i, j) (combinations (seq 0 (length tracks)))
          <-> (i < j < length tracks)%nat)
    /\ (NoDup (map globalIndex tracks) ->
        forall p1 p2,
          In (p1, p2) (combinations tracks) ->
          globalIndex p1 <> globalIndex p2)
    /\ (forall col tmpIDtrack st p1 p2,
          globalIndex p1 = globalIndex p2 ->
          phiStep cfg ext col tmpIDtrack st (p1, p2) = st).
Proof.
  intros cfg ext tracks.
  split; [apply combinations_length|].
  split.
  { intro d.
    rewrite <- (combinations_map (fun i => nth i tracks d)).
    now rewrite map_nth_seq. }
  split; [apply combinations_NoDup, seq_NoDup|].
  split.
  { intros i j. rewrite combinations_seq_in. lia. }
  split.
  - intros Hnd p1 p2. now apply combinations_distinct_keys.
  - intros. now apply phiStep_same_track.
Qed.

Lemma combinations_enumeration_witness :
  length (combinations sampleTracks) = 3%nat
  /\ (forall p1 p2,
        In (p1, p2) (combinations sampleTracks) ->
        globalIndex p1 <> globalIndex p2)
  /\ phiStep defaultConfig plainCollab (sampleCollision 1 1) [10; 11]
             initTask
             (sampleTrack 10 (3 # 10) 0 0, sampleTrack 10 (3 # 10) 0 0)
     = initTask.
Proof.
  pose proof (combinations_enumeration defaultConfig plainCollab sampleTracks)
    as (Hlen & _ & _ & _ & Hdistinct & Hsame).
  split; [exact Hlen|split].
  - apply Hdistinct.
    change (NoDup [10; 11; 12]).
    repeat (constructor; [simpl; intros H; decompose [or] H;
                          try discriminate; try assumption|]).
    constructor.
  - apply Hsame. reflexivity.
Defined.

(** ** The magnetic-field cache *)

(** The first refresh asks the CCDB, and a missing object is fatal. *)
Lemma updateMagField_first_lookup (ext : Collaborators) (st : Task)
    (col : Collision) :
  grpo st = None ->
  mRunNumber st <> runNumber (bc col) ->
  match ccdb_getForTimeStamp ext (timestamp (bc col)) with
  | None => updateMagField ext st col = None
  | Some g =>
      updateMagField ext st col
      = Some (mkTask (runNumber (bc col))
                     ((1 # 10) * inject_Z (getNominalL3Field g))%Q
                     (Some g)
                     (ccdbQueries st ++ [timestamp (bc col)])
                     (emitted st))
  end.
Proof.
  intros Hg Hrun. unfold updateMagField, getMagneticFieldTesla.
  apply Z.eqb_neq in Hrun. rewrite Hrun, Hg. cbn [negb].
  now destruct (ccdb_getForTimeStamp ext _).
Qed.

(** Once the static [grpo] is set, a change of run number asks nothing:
    the field is recomputed from the object of the first run. *)
Lemma updateMagField_stale (ext : Collaborators) (st : Task)
    (col : Collision) (g : GRPObject) :
  grpo st = Some g ->
  mRunNumber st <> runNumber (bc col) ->
  updateMagField ext st col
  = Some (mkTask (runNumber (bc col))
                 ((1 # 10) * inject_Z (getNominalL3Field g))%Q
                 (Some g) (ccdbQueries st) (emitted st)).
Proof.
  intros Hg Hrun. unfold updateMagField, getMagneticFieldTesla.
  apply Z.eqb_neq in Hrun. rewrite Hrun, Hg. cbn [negb]. now rewrite Hg.
Qed.

(** C3 on two events of two runs.  Run 7 (timestamp 100) has a nominal
    field of 5 kG in the database and run 8 (timestamp 200) one of -5 kG.
    The first call asks the database for timestamp 100.  The second call
    sees the new run number but asks nothing: the queries stay [[100]] and
    the field recorded for run 8, also in its event record, is the 0.5 T
    of run 7. *)
Theorem magnetic_field_stale_on_second_run :
  exists st1 st2,
    processProd defaultConfig acceptingCollab initTask
                (sampleCollision 7 100) [] [] = Some st1
    /\ processProd defaultConfig acceptingCollab st1
                   (sampleCollision 8 200) [] [] = Some st2
    /\ sampleDB 100 = Some (mkGRP 5)
    /\ sampleDB 200 = Some (mkGRP (-5))
    /\ (mRunNumber st1, ccdbQueries st1) = (7, [100])
    /\ (mRunNumber st2, ccdbQueries st2) = (8, [100])
    /\ (mMagField st2 == 1 # 2)%Q
    /\ map cr_magField (collisionRows (emitted st2))
       = [((1 # 10) * inject_Z 5)%Q; ((1 # 10) * inject_Z 5)%Q].
Proof.
  do 2 eexists.
  split; [reflexivity|].
  split; [reflexivity|].
  repeat split.
Qed.

(** * Further properties of the producer *)

(** ** getRowDaughters on arbitrary vectors *)

Lemma getRowDaughters_from_spec (daughID : Z) (vecID : list Z) :
  forall i : nat,
    (~ In daughID vecID /\ getRowDaughters_from i daughID vecID = -1)
    \/ exists k : nat,
        nth_error vecID k = Some daughID
        /\ (forall j, (j < k)%nat -> nth_error vecID j <> Some daughID)
        /\ getRowDaughters_from i daughID vecID = to_int (Z.of_nat (i + k)).
Proof.
  induction vecID as [|x rest IH]; intro i.
  - left. split; [intros []|reflexivity].
  - simpl. destruct (Z.eqb_spec x daughID) as [->|Hne].
    + right. exists 0%nat. split; [reflexivity|].
      split; [intros j Hj; lia|]. now rewrite Nat.add_0_r.
    + destruct (IH (S i)) as [[Hnot Hres]|(k & Hk & Hfirst & Hres)].
      * left. split; [|exact Hres]. intros [E|Hin]; [congruence|tauto].
      * right. exists (S k). split; [exact Hk|]. split.
        -- intros [|j] Hj; simpl; [congruence|]. apply Hfirst. lia.
        -- rewrite Hres. do 2 f_equal. lia.
Qed.

(** X1.  On a vector of at most 2^31 entries [getRowDaughters] answers
    [-1] exactly when the identifier is absent; any other answer is the
    position of the first entry equal to the identifier, also when the
    identifier occurs several times. *)
Theorem getRowDaughters_first_match :
  forall (daughID : Z) (vecID : list Z),
    Z.of_nat (length vecID) <= 2147483648 ->
    (getRowDaughters daughID vecID = -1 <-> ~ In daughID vecID)
    /\ (getRowDaughters daughID vecID <> -1 ->
        exists k : nat,
          getRowDaughters daughID vecID = Z.of_nat k
          /\ nth_error vecID k = Some daughID
          /\ forall j, (j < k)%nat -> nth_error vecID j <> Some daughID).
Proof.
  intros daughID vecID Hlen. unfold getRowDaughters.
  destruct (getRowDaughters_from_spec daughID vecID 0)
    as [[Hnot Hres]|(k & Hk & Hfirst & Hres)].
  - split; [split; [intros _; exact Hnot|intros _; exact Hres]|].
    intro Hne. congruence.
  - assert (Hlt : (k < length vecID)%nat)
      by (apply nth_error_Some; congruence).
    assert (Hid : to_int (Z.of_nat (0 + k)) = Z.of_nat k)
      by (apply to_int_id; unfold int_range; simpl; lia).
    rewrite Hres, Hid. split.
    + split; [lia|]. intro Hnot. exfalso. apply Hnot.
      now apply (nth_error_In _ k).
    + intros _. exists k. now repeat split.
Qed.

Lemma getRowDaughters_first_match_witness :
  getRowDaughters 11 [10; 11; 12; 11] = Z.of_nat 1
  /\ getRowDaughters 13 [10; 11; 12; 11] = -1.
Proof.
  pose proof (getRowDaughters_first_match 11 [10; 11; 12; 11]) as H11.
  pose proof (getRowDaughters_first_match 13 [10; 11; 12; 11]) as H13.
  split.
  - destruct H11 as [_ H]; [simpl; lia|].
    destruct H as (k & Hk & Hnth & Hfirst); [discriminate|].
    rewrite Hk. f_equal.
    destruct k as [|[|k]]; [discriminate|reflexivity|].
    exfalso. apply (Hfirst 1%nat); [lia|reflexivity].
  - destruct H13 as [H _]; [simpl; lia|].
    apply H. simpl. intros [E|[E|[E|[E|[]]]]]; discriminate.
Defined.

(** ** The fatal exit *)

(** X2.  A call of [processProd] aborts exactly when the run number
    differs from the cached one, no conditions object has been fetched
    yet, and the CCDB has none for the event's timestamp; event
    selection, tracks and V0s play no part. *)
Theorem processProd_fatal_iff :
  forall (cfg : Config) (ext : Collaborators) (st : Task) (col : Collision)
         (tracks : list Track) (fullV0s : list V0),
    processProd cfg ext st col tracks fullV0s = None
    <-> (mRunNumber st <> runNumber (bc col)
         /\ grpo st = None
         /\ ccdb_getForTimeStamp ext (timestamp (bc col)) = None).
Proof.
  intros cfg ext st col tracks fullV0s.
  unfold processProd, updateMagField, getMagneticFieldTesla.
  destruct (Z.eqb_spec (mRunNumber st) (runNumber (bc col))) as [E|E];
    cbn [negb].
  - split; [discriminate|]. intros (H & _). contradiction.
  - destruct (grpo st) as [g|].
    + split; [discriminate|]. intros (_ & H & _). discriminate.
    + destruct (ccdb_getForTimeStamp ext (timestamp (bc col))).
      * split; [discriminate|]. intros (_ & _ & H). discriminate.
      * split; [now intros _|reflexivity].
Qed.

(** ** The field cache over a run *)

Lemma produce_keeps_cache (cfg : Config) (ext : Collaborators) (st : Task)
    (col : Collision) (tracks : list Track) (fullV0s : list V0) :
  let st' := produce cfg ext st col tracks fullV0s in
  mRunNumber st' = mRunNumber st
  /\ mMagField st' = mMagField st
  /\ grpo st' = grpo st
  /\ ccdbQueries st' = ccdbQueries st.
Proof.
  cbv zeta.
  destruct (colCuts_isSelected ext col) eqn:Hsel.
  - rewrite (produce_accepted cfg ext st col tracks fullV0s Hsel).
    now repeat split.
  - unfold produce. rewrite Hsel. cbn [negb].
    destruct (ConfIsTrigger cfg); now repeat split.
Qed.

Lemma processProd_keeps_fieldCacheInv (cfg : Config) (ext : Collaborators)
    (st st' : Task) (col : Collision) (tracks : list Track)
    (fullV0s : list V0) :
  fieldCacheInv ext st ->
  processProd cfg ext st col tracks fullV0s = Some st' ->
  fieldCacheInv ext st'.
Proof.
  intros Hinv Hrun. unfold processProd in Hrun.
  destruct (updateMagField ext st col) as [st1|] eqn:Hmag; [|discriminate].
  injection Hrun as <-.
  destruct (produce_keeps_cache cfg ext st1 col tracks fullV0s)
    as (_ & Hf & Hg & Hq).
  unfold fieldCacheInv. rewrite Hf, Hg, Hq.
  clear Hf Hg Hq.
  unfold updateMagField, getMagneticFieldTesla in Hmag.
  destruct (negb _); [|injection Hmag as <-; exact Hinv].
  destruct Hinv as [(Hg & Hq & Hf)|(g & ts & Hg & Hq & Hdb & Hf)].
  - rewrite Hg in Hmag.
    destruct (ccdb_getForTimeStamp ext (timestamp (bc col))) as [g|] eqn:Hdb;
      [|discriminate].
    injection Hmag as <-. right. exists g, (timestamp (bc col)).
    cbn. rewrite Hq. now repeat split.
  - rewrite Hg in Hmag. injection Hmag as <-.
    right. exists g, ts. cbn. now repeat split.
Qed.

(** X3.  From the state [init] leaves, whatever the events of a run, the
    CCDB has been asked at most once: either nothing was fetched and the
    field is still 0, or exactly one object was fetched, by one query, and
    the cached field is a tenth of its nominal L3 field. *)
Theorem ccdb_asked_at_most_once :
  forall (cfg : Config) (ext : Collaborators) (events : list Event)
         (st' : Task),
    runEvents cfg ext initTask events = Some st' ->
    fieldCacheInv ext st' /\ (length (ccdbQueries st') <= 1)%nat.
Proof.
  intros cfg ext events st' Hrun.
  assert (Hinv : fieldCacheInv ext st').
  { assert (H0 : fieldCacheInv ext initTask) by (left; now repeat split).
    revert Hrun H0. generalize initTask as st.
    induction events as [|e events IH]; intros st Hrun H0; simpl in Hrun.
    - now injection Hrun as <-.
    - destruct (processProd cfg ext st (ev_col e) (ev_tracks e)
                            (ev_fullV0s e)) as [st1|] eqn:Hstep;
        [|discriminate].
      apply (IH st1 Hrun).
      exact (processProd_keeps_fieldCacheInv _ _ _ _ _ _ _ H0 Hstep). }
  split; [exact Hinv|].
  destruct Hinv as [(_ & Hq & _)|(g & ts & _ & Hq & _)]; rewrite Hq; simpl; lia.
Qed.

Lemma ccdb_asked_at_most_once_witness :
  exists st',
    runEvents defaultConfig acceptingCollab initTask sampleEvents = Some st'
    /\ fieldCacheInv acceptingCollab st'
    /\ (length (ccdbQueries st') <= 1)%nat.
Proof.
  eexists. split; [reflexivity|].
  apply (ccdb_asked_at_most_once defaultConfig acceptingCollab sampleEvents).
  reflexivity.
Defined.

(** X4.  Once a conditions object has been fetched no later event can
    abort the run: every sequence of events is processed to the end. *)
Theorem no_abort_after_fetch :
  forall (cfg : Config) (ext : Collaborators) (events : list Event)
         (st : Task) (g : GRPObject),
    grpo st = Some g ->
    exists st',
      runEvents cfg ext st events = Some st' /\ grpo st' = Some g.
Proof.
  intros cfg ext events. induction events as [|e events IH]; intros st g Hg.
  - exists st. now split.
  - simpl.
    destruct (processProd cfg ext st (ev_col e) (ev_tracks e) (ev_fullV0s e))
      as [st1|] eqn:Hstep.
    + apply IH. unfold processProd in Hstep.
      destruct (updateMagField ext st (ev_col e)) as [st0|] eqn:Hmag;
        [|discriminate].
      injection Hstep as <-.
      destruct (produce_keeps_cache cfg ext st0 (ev_col e) (ev_tracks e)
                                    (ev_fullV0s e)) as (_ & _ & Hg' & _).
      rewrite Hg'. unfold updateMagField, getMagneticFieldTesla in Hmag.
      rewrite Hg in Hmag.
      destruct (negb _); injection Hmag as <-; assumption.
    + exfalso. unfold processProd, updateMagField, getMagneticFieldTesla
        in Hstep.
      rewrite Hg in Hstep. destruct (negb _); discriminate.
Qed.

Lemma no_abort_after_fetch_witness :
  exists st',
    runEvents defaultConfig plainCollab refreshedTask sampleEvents = Some st'
    /\ grpo st' = Some (mkGRP 5).
Proof.
  apply (no_abort_after_fetch defaultConfig plainCollab sampleEvents
           refreshedTask (mkGRP 5)).
  reflexivity.
Defined.

(** ** What one call writes *)

Lemma processProd_log (cfg : Config) (ext : Collaborators) (st st' : Task)
    (col : Collision) (tracks : list Track) (fullV0s : list V0) :
  processProd cfg ext st col tracks fullV0s = Some st' ->
  exists st1,
    updateMagField ext st col = Some st1
    /\ emitted st'
       = emitted st
         ++ callLog cfg ext (outputCollision_lastIndex st)
              (outputParts_lastIndex st) (mMagField st1) col tracks fullV0s.
Proof.
  intro Hrun. unfold processProd in Hrun.
  destruct (updateMagField ext st col) as [st1|] eqn:Hmag; [|discriminate].
  injection Hrun as <-. exists st1. split; [reflexivity|].
  pose proof (updateMagField_emitted ext st st1 col Hmag) as Hem.
  assert (Hc : outputCollision_lastIndex st1 = outputCollision_lastIndex st)
    by (unfold outputCollision_lastIndex; now rewrite Hem).
  assert (Hp : outputParts_lastIndex st1 = outputParts_lastIndex st)
    by (unfold outputParts_lastIndex; now rewrite Hem).
  unfold callLog. destruct (colCuts_isSelected ext col) eqn:Hsel.
  - rewrite (produce_accepted_emitted cfg ext st1 col tracks fullV0s Hsel).
    now rewrite Hem, Hc, Hp.
  - rewrite (produce_rejected cfg ext st1 col tracks fullV0s Hsel).
    now rewrite Hem.
Qed.

Lemma triplesFrom_Forall {A : Type} (P : ParticleRow -> Prop)
    (triple : Z -> A -> list ParticleRow) :
  (forall next a, Forall P (triple next a)) ->
  forall (l : list A) (next : Z), Forall P (triplesFrom triple next l).
Proof.
  intros H l. induction l as [|a l IH]; intro next; simpl.
  - constructor.
  - apply Forall_app. split; [apply H|apply IH].
Qed.

(** A property of the rows of all seven [outputParts] calls is a property
    of every row written for an event. *)
Lemma emissionOrder_spec_Forall (P : ParticleRow -> Prop) (cfg : Config)
    (ext : Collaborators) (col : Collision) (k next : Z)
    (tracks : list Track) (fullV0s : list V0) :
  (forall t, P (trackRow k t)) ->
  (forall cc row v0, P (v0PosChildRow k cc row v0)) ->
  (forall cc row v0, P (v0NegChildRow k cc row v0)) ->
  (forall cc r1 r2 v0, P (v0ParentRow ext k cc col r1 r2 v0)) ->
  (forall cc row t, P (phiPosChildRow ext k cc row t)) ->
  (forall cc row t, P (phiNegChildRow ext k cc row t)) ->
  (forall cc r1 r2 p1 p2, P (phiParentRow ext k cc r1 r2 p1 p2)) ->
  Forall P (emissionOrder_spec cfg ext col k next tracks fullV0s).
Proof.
  intros Ht Hv1 Hv2 Hv3 Hp1 Hp2 Hp3. unfold emissionOrder_spec.
  apply Forall_app. split.
  { apply Forall_forall. intros r Hin. apply in_map_iff in Hin.
    destruct Hin as (t & <- & _). apply Ht. }
  apply Forall_app. split.
  - destruct (ConfStoreV0 cfg); [|constructor].
    apply triplesFrom_Forall. intros nx v0. unfold v0Triple.
    destruct (_ && _); repeat constructor; auto.
  - destruct (ConfStorePhi cfg); [|constructor].
    apply triplesFrom_Forall. intros nx pr. unfold phiTriple.
    destruct (phiAccepted _ _ _ _); repeat constructor; auto.
Qed.

(** ** Event records over a run *)

Lemma callLog_collisionRows (cfg : Config) (ext : Collaborators)
    (lc lp : Z) (f : Q) (col : Collision) (tracks : list Track)
    (fullV0s : list V0) :
  length (collisionRows (callLog cfg ext lc lp f col tracks fullV0s))
  = if colCuts_isSelected ext col || ConfIsTrigger cfg then 1%nat else 0%nat.
Proof.
  unfold callLog. destruct (colCuts_isSelected ext col); cbn [orb].
  - cbn [collisionRows]. now rewrite collisionRows_EmitParticle.
  - now destruct (ConfIsTrigger cfg).
Qed.

(** X5.  Over a run that reaches its end, the number of event records
    grows by the number of events that passed the event selection, and in
    trigger mode by the number of all events. *)
Theorem collision_rows_over_run :
  forall (cfg : Config) (ext : Collaborators) (events : list Event)
         (st st' : Task),
    runEvents cfg ext st events = Some st' ->
    length (collisionRows (emitted st'))
    = (length (collisionRows (emitted st))
       + length (filter (fun e => colCuts_isSelected ext (ev_col e)
                                  || ConfIsTrigger cfg) events))%nat.
Proof.
  intros cfg ext events.
  induction events as [|e events IH]; intros st st' Hrun; simpl in Hrun.
  - injection Hrun as <-. simpl. lia.
  - destruct (processProd cfg ext st (ev_col e) (ev_tracks e) (ev_fullV0s e))
      as [st1|] eqn:Hstep; [|discriminate].
    rewrite (IH st1 st' Hrun).
    destruct (processProd_log _ _ _ _ _ _ _ Hstep) as (st0 & _ & Hlog).
    rewrite Hlog, collisionRows_app, length_app, callLog_collisionRows.
    cbn [filter].
    destruct (colCuts_isSelected ext (ev_col e) || ConfIsTrigger cfg);
      cbn [length]; lia.
Qed.

Lemma collision_rows_over_run_witness :
  exists st',
    runEvents triggerConfig rejectingCollab initTask sampleEvents = Some st'
    /\ length (collisionRows (emitted st')) = 2%nat.
Proof.
  eexists. split; [reflexivity|].
  apply (collision_rows_over_run triggerConfig rejectingCollab sampleEvents
           initTask).
  reflexivity.
Defined.

(** ** Particle rows point at their own event record *)

Lemma linkedFrom_app (a b : list Emission) :
  forall n : nat,
    linkedFrom n (a ++ b)
    <-> linkedFrom n a /\ linkedFrom (n + length (collisionRows a)) b.
Proof.
  induction a as [|[r|r] a IH]; intro n; cbn [app linkedFrom collisionRows].
  - rewrite Nat.add_0_r. tauto.
  - rewrite IH. cbn [length].
    replace (S n + length (collisionRows a))%nat
      with (n + S (length (collisionRows a)))%nat by lia.
    tauto.
  - rewrite IH. tauto.
Qed.

Lemma linkedFrom_split (log : list Emission) :
  forall n : nat,
    linkedFrom n log ->
    forall a b r,
      log = a ++ EmitParticle r :: b ->
      (0 < n + length (collisionRows a))%nat
      /\ r_collisionId r = Z.of_nat (n + length (collisionRows a)) - 1.
Proof.
  intros n H a b r ->.
  apply linkedFrom_app in H. destruct H as [_ H].
  cbn [linkedFrom] in H. now destruct H as (H1 & H2 & _).
Qed.

Lemma linkedFrom_particles (n : nat) (rows : list ParticleRow) :
  (0 < n)%nat ->
  Forall (fun r => r_collisionId r = Z.of_nat n - 1) rows ->
  linkedFrom n (map EmitParticle rows).
Proof.
  intros Hn. induction 1 as [|r rows Hr _ IH]; cbn [map linkedFrom].
  - exact I.
  - now repeat split.
Qed.

Lemma callLog_linked (cfg : Config) (ext : Collaborators) (n : nat) (lp : Z)
    (f : Q) (col : Collision) (tracks : list Track) (fullV0s : list V0) :
  linkedFrom n (callLog cfg ext (Z.of_nat n - 1) lp f col tracks fullV0s).
Proof.
  unfold callLog. destruct (colCuts_isSelected ext col).
  - cbn [linkedFrom]. apply linkedFrom_particles; [lia|].
    replace (Z.of_nat n - 1 + 1) with (Z.of_nat (S n) - 1) by lia.
    apply emissionOrder_spec_Forall; reflexivity.
  - destruct (ConfIsTrigger cfg); exact I.
Qed.

(** X6.  After any run from the state [init] leaves, every particle row of
    the output carries in its collision index the index of the event
    record written last before it; no particle row precedes the first
    event record. *)
Theorem particle_rows_point_at_own_event :
  forall (cfg : Config) (ext : Collaborators) (events : list Event)
         (st' : Task),
    runEvents cfg ext initTask events = Some st' ->
    pointsAtOwnEvent (emitted st').
Proof.
  intros cfg ext events st' Hrun.
  assert (Hinv : linkedFrom 0 (emitted st')).
  { assert (H0 : linkedFrom 0 (emitted initTask)) by exact I.
    revert Hrun H0. generalize initTask as st.
    induction events as [|e events IH]; intros st Hrun H0; simpl in Hrun.
    - now injection Hrun as <-.
    - destruct (processProd cfg ext st (ev_col e) (ev_tracks e)
                            (ev_fullV0s e)) as [st1|] eqn:Hstep;
        [|discriminate].
      apply (IH st1 Hrun).
      destruct (processProd_log _ _ _ _ _ _ _ Hstep) as (st0 & _ & Hlog).
      rewrite Hlog. apply linkedFrom_app. split; [exact H0|].
      unfold outputCollision_lastIndex. cbn [Nat.add].
      apply callLog_linked. }
  intros a b r Hsplit.
  destruct (linkedFrom_split _ 0 Hinv a b r Hsplit) as [Hpos Hid].
  cbn [Nat.add] in *. split; [|exact Hid].
  intro E. rewrite E in Hpos. simpl in Hpos. lia.
Qed.

Lemma particle_rows_point_at_own_event_witness :
  exists st',
    runEvents defaultConfig acceptingCollab initTask sampleEvents = Some st'
    /\ pointsAtOwnEvent (emitted st').
Proof.
  eexists. split; [reflexivity|].
  apply (particle_rows_point_at_own_event defaultConfig acceptingCollab
           sampleEvents).
  reflexivity.
Defined.

(** ** How many particle rows an event writes *)

Lemma triplesFrom_length {A : Type} (triple : Z -> A -> list ParticleRow)
    (pass : A -> bool) :
  (forall next a,
      length (triple next a) = if pass a then 3%nat else 0%nat) ->
  forall (l : list A) (next : Z),
    length (triplesFrom triple next l) = (3 * length (filter pass l))%nat.
Proof.
  intros H l. induction l as [|a l IH]; intro next; simpl.
  - reflexivity.
  - rewrite length_app, IH, H.
    destruct (pass a); cbn [length]; lia.
Qed.

Lemma emissionOrder_spec_length (cfg : Config) (ext : Collaborators)
    (col : Collision) (k next : Z) (tracks : list Track)
    (fullV0s : list V0) :
  length (emissionOrder_spec cfg ext col k next tracks fullV0s)
  = (length (acceptedTracks ext tracks)
     + 3 * (if ConfStoreV0 cfg
            then length (filter (v0Pass ext col) fullV0s) else 0)
     + 3 * (if ConfStorePhi cfg
            then length (filter (fun pr => phiAccepted cfg ext (fst pr)
                                              (snd pr))
                                (combinations tracks))
            else 0))%nat.
Proof.
  unfold emissionOrder_spec. rewrite !length_app, length_map.
  assert (Hv : forall nx,
             length (if ConfStoreV0 cfg
                     then triplesFrom
                            (v0Triple ext col k (daughterIndexMap ext tracks))
                            nx fullV0s
                     else [])
             = (3 * (if ConfStoreV0 cfg
                     then length (filter (v0Pass ext col) fullV0s)
                     else 0))%nat).
  { intro nx. destruct (ConfStoreV0 cfg); [|reflexivity].
    apply triplesFrom_length. intros n v0. unfold v0Triple, v0Pass.
    now destruct (_ && _). }
  rewrite Hv.
  destruct (ConfStorePhi cfg); [|cbn [length]; lia].
  rewrite (triplesFrom_length _
             (fun pr => phiAccepted cfg ext (fst pr) (snd pr))).
  - lia.
  - intros n pr. unfold phiTriple.
    now destruct (phiAccepted cfg ext (fst pr) (snd pr)).
Qed.

(** X7.  An accepted event adds to the particle table one row per track
    that passed the minimal track selection, three rows per V0 that passed
    the minimal V0 selection and the bitmap test (when V0s are stored) and
    three rows per track pair that passed the per-leg gates and the mass
    window (when Phis are stored): candidates are written whole or not at
    all. *)
Theorem particle_rows_per_event :
  forall (cfg : Config) (ext : Collaborators) (st st' : Task)
         (col : Collision) (tracks : list Track) (fullV0s : list V0),
    processProd cfg ext st col tracks fullV0s = Some st' ->
    colCuts_isSelected ext col = true ->
    length (particleRows (emitted st'))
    = (length (particleRows (emitted st))
       + length (acceptedTracks ext tracks)
       + 3 * (if ConfStoreV0 cfg
              then length (filter (v0Pass ext col) fullV0s) else 0)
       + 3 * (if ConfStorePhi cfg
              then length (filter (fun pr => phiAccepted cfg ext (fst pr)
                                                (snd pr))
                                  (combinations tracks))
              else 0))%nat.
Proof.
  intros cfg ext st st' col tracks fullV0s Hrun Hsel.
  destruct (processProd_log _ _ _ _ _ _ _ Hrun) as (st0 & _ & Hlog).
  rewrite Hlog. unfold callLog. rewrite Hsel.
  rewrite particleRows_app. cbn [particleRows].
  rewrite particleRows_EmitParticle, length_app, emissionOrder_spec_length.
  lia.
Qed.

Lemma particle_rows_per_event_witness :
  length (particleRows
            (emitted (produce defaultConfig acceptingCollab refreshedTask
                        (sampleCollision 7 100) sampleTracks [sampleV0])))
  = (length (particleRows (emitted initTask)) + 2 + 3 * 1 + 3 * 1)%nat.
Proof.
  apply (particle_rows_per_event defaultConfig acceptingCollab initTask
           _ (sampleCollision 7 100) sampleTracks [sampleV0]).
  - reflexivity.
  - reflexivity.
Defined.

(** ** Parent rows over a run *)

Lemma childrenBeforeParent_linkedBetween (T : list ParticleRow)
    (from upto : nat) :
  childrenBeforeParent T from -> linkedBetween T from upto.
Proof.
  intros H i par [Hi _] Hnth Hpar. now apply H.
Qed.

Lemma linkedBetween_extend (T more : list ParticleRow) (from : nat) :
  childrenBeforeParent T from ->
  linkedBetween (T ++ more) from (length T).
Proof.
  intros H i par [Hi Hlt] Hnth Hpar.
  rewrite nth_error_app1 in Hnth by exact Hlt.
  destruct (H i par Hi Hnth Hpar) as (c1 & c2 & G1 & G2 & G3 & G).
  exists c1, c2. split; [exact G1|].
  rewrite !nth_error_app1 by lia. now split.
Qed.

Lemma callLog_keeps_parents_linked (cfg : Config) (ext : Collaborators)
    (T : list ParticleRow) (lc : Z) (f : Q) (col : Collision)
    (tracks : list Track) (fullV0s : list V0) :
  childrenBeforeParent T 0 ->
  childrenBeforeParent
    (T ++ particleRows
            (callLog cfg ext lc (Z.of_nat (length T) - 1) f col tracks
                     fullV0s))
    0.
Proof.
  intro HT. unfold callLog.
  destruct (colCuts_isSelected ext col).
  - cbn [particleRows]. rewrite particleRows_EmitParticle.
    replace (Z.of_nat (length T) - 1 + 1) with (Z.of_nat (length T)) by lia.
    apply linkedBetween_all.
    apply (linkedBetween_join _ 0 (length T)); [lia| |].
    + now apply linkedBetween_extend.
    + apply childrenBeforeParent_linkedBetween.
      apply emissionOrder_spec_linked.
  - destruct (ConfIsTrigger cfg); cbn [particleRows];
      now rewrite app_nil_r.
Qed.

(** X8.  After any run from the state [init] leaves, every V0 or Phi row
    of the particle table, of whatever event, sits right behind its two
    child rows (of the matching child type), and its two child-index
    fields are the [int] values of their positions in the table. *)
Theorem parents_linked_over_run :
  forall (cfg : Config) (ext : Collaborators) (events : list Event)
         (st' : Task),
    runEvents cfg ext initTask events = Some st' ->
    childrenBeforeParent (particleRows (emitted st')) 0.
Proof.
  intros cfg ext events st' Hrun.
  assert (H0 : childrenBeforeParent (particleRows (emitted initTask)) 0).
  { intros i par _ Hnth. now destruct i. }
  revert Hrun H0. generalize initTask as st.
  induction events as [|e events IH]; intros st Hrun H0; simpl in Hrun.
  - now injection Hrun as <-.
  - destruct (processProd cfg ext st (ev_col e) (ev_tracks e) (ev_fullV0s e))
      as [st1|] eqn:Hstep; [|discriminate].
    apply (IH st1 Hrun).
    destruct (processProd_log _ _ _ _ _ _ _ Hstep) as (st0 & _ & Hlog).
    rewrite Hlog, particleRows_app.
    unfold outputParts_lastIndex.
    now apply callLog_keeps_parents_linked.
Qed.

Lemma parents_linked_over_run_witness :
  exists st',
    runEvents defaultConfig acceptingCollab initTask sampleEvents = Some st'
    /\ childrenBeforeParent (particleRows (emitted st')) 0.
Proof.
  eexists. split; [reflexivity|].
  apply (parents_linked_over_run defaultConfig acceptingCollab sampleEvents).
  reflexivity.
Defined.

(** ** The 8-bit cluster columns *)

Lemma to_uint8_range (z : Z) : uint8_range (to_uint8 z).
Proof. unfold uint8_range, to_uint8. apply Z.mod_pos_bound. lia. Qed.

(** X9.  Whatever cluster counts the input tracks carry, every particle
    row a call writes has its found-clusters and crossed-rows columns
    within 0..255 (the casts to [uint8_t] wrap), and its six trailing
    columns are -999. *)
Theorem cluster_columns_fit_uint8 :
  forall (cfg : Config) (ext : Collaborators) (st st' : Task)
         (col : Collision) (tracks : list Track) (fullV0s : list V0),
    processProd cfg ext st col tracks fullV0s = Some st' ->
    exists new,
      emitted st' = emitted st ++ new
      /\ forall r,
          In (EmitParticle r) new ->
          uint8_range (d_tpcNClsFound (r_debug r))
          /\ uint8_range (d_tpcNClsCrossedRows (r_debug r))
          /\ d_trailing (r_debug r) = repeat (-999 # 1)%Q 6.
Proof.
  intros cfg ext st st' col tracks fullV0s Hrun.
  destruct (processProd_log _ _ _ _ _ _ _ Hrun) as (st0 & _ & Hlog).
  eexists. split; [exact Hlog|].
  intros r Hin. unfold callLog in Hin.
  destruct (colCuts_isSelected ext col).
  - destruct Hin as [Hin|Hin]; [discriminate|].
    apply in_map_iff in Hin. destruct Hin as (r' & [= ->] & Hin).
    revert r Hin. apply Forall_forall.
    apply emissionOrder_spec_Forall; intros;
      (split; [apply to_uint8_range
              |split; [first [apply to_uint8_range
                             |unfold uint8_range; simpl; lia]
                      |reflexivity]]).
  - destruct (ConfIsTrigger cfg); simpl in Hin.
    + destruct Hin as [Hin|[]]. discriminate.
    + destruct Hin.
Qed.

Lemma cluster_columns_fit_uint8_witness :
  exists new,
    emitted (produce defaultConfig acceptingCollab refreshedTask
               (sampleCollision 7 100) [wideCountTrack] [])
    = emitted initTask ++ new
    /\ forall r,
        In (EmitParticle r) new ->
        uint8_range (d_tpcNClsFound (r_debug r))
        /\ uint8_range (d_tpcNClsCrossedRows (r_debug r))
        /\ d_trailing (r_debug r) = repeat (-999 # 1)%Q 6.
Proof.
  apply (cluster_columns_fit_uint8 defaultConfig acceptingCollab initTask
           _ (sampleCollision 7 100) [wideCountTrack] []).
  reflexivity.
Defined.

(** ** The pair test does not depend on the order of the legs *)

Lemma Qplus_comm_eq (a b : Q) : (a + b)%Q = (b + a)%Q.
Proof.
  unfold Qplus. f_equal; [ring|apply Pos.mul_comm].
Qed.

Lemma lv_add_comm (a b : TLorentzVector) : lv_add a b = lv_add b a.
Proof.
  unfold lv_add. f_equal; apply Qplus_comm_eq.
Qed.

Lemma sumVec_comm (ext : Collaborators) (p1 p2 : Track) :
  sumVec ext p1 p2 = sumVec ext p2 p1.
Proof. unfold sumVec. apply lv_add_comm. Qed.

Lemma phiGates_comm (cfg : Config) (ext : Collaborators) (p1 p2 : Track) :
  phiGates cfg ext p1 p2 = phiGates cfg ext p2 p1.
Proof.
  unfold phiGates.
  unfold cfgPtLowPart1, cfgPtHighPart1, cfgPLowPart1, cfgPHighPart1,
    cfgEtaLowPart1, cfgEtaHighPart1, cfgPtLowPart2, cfgPtHighPart2,
    cfgPLowPart2, cfgPHighPart2, cfgEtaLowPart2, cfgEtaHighPart2.
  rewrite (Z.eqb_sym (globalIndex p2) (globalIndex p1)).
  destruct (TrackTypeEnum_eqb (trackType p1) TT_Run2Tracklet),
           (TrackTypeEnum_eqb (trackType p2) TT_Run2Tracklet);
    cbn [orb]; try reflexivity.
  destruct (globalIndex p1 =? globalIndex p2); [reflexivity|].
  repeat match goal with
         | |- context [if ?c then false else _] => destruct c
         end; reflexivity.
Qed.

(** X10.  Whether a track pair is taken as a Phi candidate (per-leg
    gates, kaon PID and mass window) does not depend on which track is the
    first leg: the two legs are tested against the same limits and the
    summed four-vector is the same.  Visiting each unordered pair once
    therefore loses no candidate. *)
Theorem phiAccepted_symmetric :
  forall (cfg : Config) (ext : Collaborators) (p1 p2 : Track),
    phiAccepted cfg ext p1 p2 = phiAccepted cfg ext p2 p1.
Proof.
  intros cfg ext p1 p2. unfold phiAccepted.
  now rewrite phiGates_comm, sumVec_comm.
Qed.

(** ** Loosening the kaon thresholds *)

(** X11.  The kaon gate is monotone in its two thresholds: with the same
    switch, a leg that passes under [ConfNsigmaTPCKaon] and
    [ConfNsigmaCombinedKaon] still passes when either threshold is
    raised. *)
Theorem IsKaonNSigma_monotone :
  forall (cfg cfg' : Config) (ext : Collaborators) (mom tpc tof : Q),
    ConfNsigmaTPCTOFKaon cfg = ConfNsigmaTPCTOFKaon cfg' ->
    (ConfNsigmaTPCKaon cfg <= ConfNsigmaTPCKaon cfg')%Q ->
    (ConfNsigmaCombinedKaon cfg <= ConfNsigmaCombinedKaon cfg')%Q ->
    IsKaonNSigma cfg ext mom tpc tof = true ->
    IsKaonNSigma cfg' ext mom tpc tof = true.
Proof.
  intros cfg cfg' ext mom tpc tof Hsw Htpc Hcomb.
  unfold IsKaonNSigma. rewrite <- Hsw.
  destruct (ConfNsigmaTPCTOFKaon cfg); [|discriminate].
  destruct (Qltb mom (4 # 10)).
  - destruct (Qltb (Qabs tpc) (ConfNsigmaTPCKaon cfg)) eqn:E; [|discriminate].
    intros _. apply Qltb_lt in E.
    assert (E' : Qltb (Qabs tpc) (ConfNsigmaTPCKaon cfg') = true)
      by (apply Qltb_lt; eapply Qlt_le_trans; eassumption).
    now rewrite E'.
  - destruct (Qgtb mom (4 # 10)); [|discriminate].
    destruct (Qltb (TMath_Hypot ext tof tpc) (ConfNsigmaCombinedKaon cfg))
      eqn:E; [|discriminate].
    intros _. apply Qltb_lt in E.
    assert (E' : Qltb (TMath_Hypot ext tof tpc) (ConfNsigmaCombinedKaon cfg')
                 = true)
      by (apply Qltb_lt; eapply Qlt_le_trans; eassumption).
    now rewrite E'.
Qed.

Lemma IsKaonNSigma_monotone_witness :
  IsKaonNSigma looseKaonConfig plainCollab (3 # 10) 4 0 = true.
Proof.
  apply (IsKaonNSigma_monotone defaultConfig looseKaonConfig).
  - reflexivity.
  - discriminate.
  - discriminate.
  - reflexivity.
Defined.

(** * Properties of MultiplicityCounter *)

Section MultiplicityCounterProperties.

Import MultiplicityCounter.

Variable useEvSel : bool.

(** ** Loops over the track tables *)

Lemma fold_push_etas (atracks : list AmbiguousTrack) :
  forall s : Counter,
    fold_left
      (fun s track =>
         mkCounter (usedTracksIds s) (tracketas s ++ [etas track])
                   (registry s))
      atracks s
    = mkCounter (usedTracksIds s) (tracketas s ++ map etas atracks)
                (registry s).
Proof.
  induction atracks as [|a l IH]; intro s; simpl.
  - rewrite app_nil_r. now destruct s.
  - rewrite IH. cbn. now rewrite <- app_assoc.
Qed.

Lemma fold_push_eta_unused (tracks : list Track) :
  forall s : Counter,
    usedTracksIds s = [] ->
    fold_left
      (fun s track =>
         if isUsed s (globalIndex track) then s
         else mkCounter (usedTracksIds s) (tracketas s ++ [eta track])
                        (registry s))
      tracks s
    = mkCounter [] (tracketas s ++ map eta tracks) (registry s).
Proof.
  induction tracks as [|t l IH]; intros s Hs; simpl.
  - rewrite app_nil_r. destruct s. simpl in Hs. now subst.
  - assert (E : isUsed s (globalIndex t) = false)
      by (unfold isUsed; now rewrite Hs).
    rewrite E, IH by exact Hs. cbn. now rewrite <- app_assoc.
Qed.

Lemma fold_fill (h : HistName) (mk : Q -> list Q) (l : list Q) :
  forall s : Counter,
    fold_left (fun s x => fill h (mk x) s) l s
    = mkCounter (usedTracksIds s) (tracketas s)
                (registry s ++ map (fun x => (h, mk x)) l).
Proof.
  induction l as [|x l IH]; intro s; simpl.
  - rewrite app_nil_r. now destruct s.
  - rewrite IH. unfold fill. cbn. now rewrite <- app_assoc.
Qed.

(** X13.  [processCounting] always fills [Events/Selection] with 1.  For a
    selected collision it then fills status 2, the vertex histogram, and
    [hrecdndeta] once per reassigned track and once per track of the
    collision, in this order: the vector [usedTracksIds] is empty when
    the exclusion test runs, so no track is ever left out, whatever
    identifiers earlier calls left behind. *)
Theorem processCounting_fills :
  forall (collision : Collision) (tracks : list Track)
         (atracks : list AmbiguousTrack) (st : Counter),
    registry (processCounting useEvSel collision tracks atracks st)
    = registry st
      ++ (EventsSelection, [1%Q])
      :: (if negb useEvSel || sel8 collision then
            (EventsSelection, [2%Q])
            :: (hreczvtx,
                [inject_Z kDATA; inject_Z kMBAND; 50%Q; posZ collision])
            :: map (fun e =>
                      (hrecdndeta,
                       [inject_Z kINEL; inject_Z kMBAND; 50%Q;
                        posZ collision; e]))
                   (map etas atracks ++ map eta tracks)
          else []).
Proof.
  intros collision tracks atracks st. unfold processCounting.
  destruct (negb useEvSel || sel8 collision); [|reflexivity].
  cbv zeta. rewrite fold_push_etas. cbn [usedTracksIds tracketas registry].
  rewrite fold_push_eta_unused by reflexivity.
  cbn [usedTracksIds tracketas registry app].
  rewrite fold_fill. cbn [registry fill].
  rewrite <- !app_assoc. reflexivity.
Qed.

(** ** processForwardCounting *)

Lemma fold_forward_atracks (z : Q) (atracks : list AmbiguousTrack) :
  forall s : Counter,
    fold_left
      (fun s track =>
         fill hrecdndeta [1%Q; 1%Q; 50%Q; z; etas track]
              (mkCounter (usedTracksIds s ++ [to_int (mfttrackId track)])
                         (tracketas s) (registry s)))
      atracks s
    = mkCounter
        (usedTracksIds s ++ map (fun a => to_int (mfttrackId a)) atracks)
        (tracketas s)
        (registry s
         ++ map (fun a => (hrecdndeta, [1%Q; 1%Q; 50%Q; z; etas a]))
                atracks).
Proof.
  induction atracks as [|a l IH]; intro s; simpl.
  - rewrite !app_nil_r. now destruct s.
  - rewrite IH. unfold fill. cbn. now rewrite <- !app_assoc.
Qed.

Lemma fold_forward_tracks (z : Q) (tracks : list Track) :
  forall s : Counter,
    fold_left
      (fun s track =>
         if isUsed s (globalIndex track) then s
         else fill hrecdndeta [1%Q; 1%Q; 50%Q; z; eta track] s)
      tracks s
    = mkCounter
        (usedTracksIds s) (tracketas s)
        (registry s
         ++ map (fun t => (hrecdndeta, [1%Q; 1%Q; 50%Q; z; eta t]))
                (filter (fun t => negb (isUsed s (globalIndex t))) tracks)).
Proof.
  induction tracks as [|t l IH]; intro s; simpl.
  - rewrite app_nil_r. now destruct s.
  - destruct (isUsed s (globalIndex t)) eqn:E; cbn [negb].
    + apply IH.
    + rewrite IH. unfold fill, isUsed. cbn. now rewrite <- app_assoc.
Qed.

(** X14.  For a selected collision [processForwardCounting] fills
    [hrecdndeta] once per reassigned track and then once per track whose
    global index is not the (int) identifier of a reassigned track; a
    collision that is not selected fills nothing.  Identifiers left in
    [usedTracksIds] by earlier calls have no effect. *)
Theorem processForwardCounting_fills :
  forall (collision : Collision) (tracks : list Track)
         (atracks : list AmbiguousTrack) (st : Counter),
    let used := map (fun a => to_int (mfttrackId a)) atracks in
    registry (processForwardCounting useEvSel collision tracks atracks st)
    = registry st
      ++ (if negb useEvSel || sel8 collision then
            map (fun a =>
                   (hrecdndeta, [1%Q; 1%Q; 50%Q; posZ collision; etas a]))
                atracks
            ++ map (fun t =>
                      (hrecdndeta, [1%Q; 1%Q; 50%Q; posZ collision; eta t]))
                   (filter (fun t =>
                              negb (existsb (Z.eqb (globalIndex t)) used))
                           tracks)
          else []).
Proof.
  intros collision tracks atracks st used. unfold processForwardCounting.
  assert (Hc : negb useEvSel || (useEvSel && sel8 collision)
               = negb useEvSel || sel8 collision)
    by (now destruct useEvSel).
  rewrite Hc.
  destruct (negb useEvSel || sel8 collision);
    [|now rewrite app_nil_r].
  cbv zeta. rewrite fold_forward_atracks, fold_forward_tracks.
  cbn [usedTracksIds tracketas registry app].
  unfold isUsed. cbn [usedTracksIds].
  now rewrite <- app_assoc.
Qed.

(** ** No track is counted twice in the forward counting *)

Lemma NoDup_map_filter {A B : Type} (g : A -> B) (f : A -> bool)
    (l : list A) :
  NoDup (map g l) -> NoDup (map g (filter f l)).
Proof.
  induction l as [|x l IH]; intro H; simpl in *; [constructor|].
  apply NoDup_cons_iff in H. destruct H as [Hx Hnd].
  destruct (f x); [|now apply IH].
  simpl. constructor; [|now apply IH].
  intro Hin. apply Hx. apply in_map_iff in Hin.
  destruct Hin as (y & <- & Hy). apply filter_In in Hy.
  apply in_map. tauto.
Qed.





(** ** processEventStat *)

Lemma collectCols_collisionsOf (bc : FullBC) (collisions : list Collision) :
  collectCols bc collisions = collisionsOf bc collisions.
Proof.
  unfold collectCols, collisionsOf.
  enough (H : forall acc,
             fold_left
               (fun cols collision =>
                  if has_foundBC collision then
                    if foundBCId collision =? bc_globalIndex bc
                    then cols ++ [collision] else cols
                  else if bcId collision =? bc_globalIndex bc
                       then cols ++ [collision] else cols)
               collisions acc
             = acc ++ filter (fun c => collisionBC c =? bc_globalIndex bc)
                             collisions)
    by apply (H []).
  induction collisions as [|c l IH]; intro acc; simpl.
  - now rewrite app_nil_r.
  - rewrite IH. unfold collisionBC.
    destruct (has_foundBC c);
      [destruct (foundBCId c =? bc_globalIndex bc)
      |destruct (bcId c =? bc_globalIndex bc)];
      simpl; now rewrite <- ?app_assoc.
Qed.

Lemma eventStatStep_fills (collisions : list Collision) (st : Counter)
    (bc : FullBC) :
  eventStatStep useEvSel collisions st bc
  = mkCounter (usedTracksIds st) (tracketas st)
              (registry st ++ statFills useEvSel collisions bc).
Proof.
  unfold eventStatStep, statFills, goodBC.
  rewrite collectCols_collisionsOf.
  destruct (negb useEvSel || (isBBT0A bc && isBBT0C bc)).
  - destruct (collisionsOf bc collisions) as [|c [|c' l]];
      unfold fill; cbn; now rewrite <- ?app_assoc.
  - rewrite app_nil_r. now destruct st.
Qed.

Lemma processEventStat_fills (bcs : list FullBC)
    (collisions : list Collision) :
  forall st : Counter,
    processEventStat useEvSel bcs collisions st
    = mkCounter (usedTracksIds st) (tracketas st)
                (registry st
                 ++ flat_map (statFills useEvSel collisions) bcs).
Proof.
  unfold processEventStat.
  induction bcs as [|bc l IH]; intro st; simpl.
  - rewrite app_nil_r. now destruct st.
  - rewrite IH, eventStatStep_fills. cbn. now rewrite <- app_assoc.
Qed.

Lemma selectionCount_app (v : Q) (a b : list Fill) :
  selectionCount v (a ++ b)
  = (selectionCount v a + selectionCount v b)%nat.
Proof. unfold selectionCount. now rewrite filter_app, length_app. Qed.

Lemma statFills_counts (collisions : list Collision) (bc : FullBC) :
  let new := statFills useEvSel collisions bc in
  (selectionCount 7 new <= selectionCount 6 new)%nat
  /\ (selectionCount 6 new <= selectionCount 5 new)%nat
  /\ selectionCount 5 new = (if goodBC useEvSel bc then 1 else 0)%nat
  /\ (selectionCount 6 new
      <= match collisionsOf bc collisions with [] => 0 | _ => 1 end)%nat.
Proof.
  unfold statFills. destruct (goodBC useEvSel bc).
  - destruct (collisionsOf bc collisions) as [|c [|c' l]];
      cbv; repeat split; lia.
  - destruct (collisionsOf bc collisions); cbv; repeat split; lia.
Qed.

Lemma attached_bcs_bound (bcs : list FullBC) (collisions : list Collision) :
  NoDup (map bc_globalIndex bcs) ->
  (length (filter (fun bc => match collisionsOf bc collisions with
                             | [] => false
                             | _ => true
                             end) bcs)
   <= length collisions)%nat.
Proof.
  intro Hnd.
  set (f := fun bc => match collisionsOf bc collisions with
                      | [] => false
                      | _ => true
                      end).
  rewrite <- (length_map bc_globalIndex (filter f bcs)).
  rewrite <- (length_map collisionBC collisions).
  apply NoDup_incl_length; [now apply NoDup_map_filter|].
  intros y Hy. apply in_map_iff in Hy. destruct Hy as (bc & <- & Hbc).
  apply filter_In in Hbc. destruct Hbc as [_ Hf]. subst f. cbn beta in Hf.
  destruct (collisionsOf bc collisions) as [|c l] eqn:E; [discriminate|].
  assert (Hc : In c (collisionsOf bc collisions)) by (rewrite E; now left).
  unfold collisionsOf in Hc. apply filter_In in Hc. destruct Hc as [Hc Hk].
  apply Z.eqb_eq in Hk. rewrite <- Hk. now apply in_map.
Qed.

Lemma statFills_only_status (collisions : list Collision) (bc : FullBC) :
  Forall (fun f : Fill =>
            f = (EventsSelection, [5%Q])
            \/ f = (EventsSelection, [6%Q])
            \/ f = (EventsSelection, [7%Q]))
         (statFills useEvSel collisions bc).
Proof.
  unfold statFills. destruct (goodBC useEvSel bc); [|constructor].
  destruct (collisionsOf bc collisions) as [|c [|c' l]];
    repeat constructor; tauto.
Qed.

(** X16.  [processEventStat] leaves [usedTracksIds] and [tracketas] alone
    and adds to the registry exactly the fills [statFills] lists for the
    bunch crossings, in order: all of them fills of [Events/Selection]
    with status 5, 6 or 7.  There are never more 7s than 6s, more 6s than
    5s, or more 5s than bunch crossings; without event selection every
    bunch crossing gives a 5; and when the bunch crossings have pairwise
    distinct global indices the number of 6s is at most the number of
    collisions. *)
Theorem processEventStat_counts :
  forall (bcs : list FullBC) (collisions : list Collision) (st : Counter),
    exists new,
      processEventStat useEvSel bcs collisions st
      = mkCounter (usedTracksIds st) (tracketas st) (registry st ++ new)
      /\ new = flat_map (statFills useEvSel collisions) bcs
      /\ Forall (fun f : Fill =>
                   f = (EventsSelection, [5%Q])
                   \/ f = (EventsSelection, [6%Q])
                   \/ f = (EventsSelection, [7%Q])) new
      /\ registry (processEventStat useEvSel bcs collisions st)
         = registry st ++ new
      /\ (selectionCount 7 new <= selectionCount 6 new)%nat
      /\ (selectionCount 6 new <= selectionCount 5 new)%nat
      /\ selectionCount 5 new = length (filter (goodBC useEvSel) bcs)
      /\ (selectionCount 5 new <= length bcs)%nat
      /\ (useEvSel = false -> selectionCount 5 new = length bcs)
      /\ (NoDup (map bc_globalIndex bcs) ->
          (selectionCount 6 new <= length collisions)%nat).
Proof.
  intros bcs collisions st.
  exists (flat_map (statFills useEvSel collisions) bcs).
  rewrite processEventStat_fills.
  split; [reflexivity|]. split; [reflexivity|].
  split.
  { apply Forall_flat_map. apply Forall_forall. intros bc _.
    apply statFills_only_status. }
  split; [reflexivity|].
  set (f := fun bc => match collisionsOf bc collisions with
                      | [] => false
                      | _ => true
                      end).
  assert (H : (selectionCount 7 (flat_map (statFills useEvSel collisions) bcs)
               <= selectionCount 6
                    (flat_map (statFills useEvSel collisions) bcs))%nat
              /\ (selectionCount 6
                    (flat_map (statFills useEvSel collisions) bcs)
                  <= selectionCount 5
                       (flat_map (statFills useEvSel collisions) bcs))%nat
              /\ selectionCount 5
                   (flat_map (statFills useEvSel collisions) bcs)
                 = length (filter (goodBC useEvSel) bcs)
              /\ (selectionCount 6
                    (flat_map (statFills useEvSel collisions) bcs)
                  <= length (filter f bcs))%nat).
  { induction bcs as [|bc l IH]; [cbv; repeat split; lia|].
    cbn [flat_map filter]. rewrite !selectionCount_app.
    destruct IH as (I1 & I2 & I3 & I4).
    destruct (statFills_counts collisions bc) as (S1 & S2 & S3 & S4).
    cbv zeta in S1, S2, S3, S4.
    split; [lia|]. split; [lia|]. split.
    - rewrite S3, I3. destruct (goodBC useEvSel bc); cbn [length]; lia.
    - subst f. cbn beta in *.
      destruct (collisionsOf bc collisions); cbn [length]; lia. }
  destruct H as (H1 & H2 & H3 & H4).
  repeat split; try assumption.
  - rewrite H3. apply filter_length_le.
  - intros ->. rewrite H3. unfold goodBC. cbn [negb orb].
    clear. induction bcs as [|bc l IH]; simpl; [reflexivity|now rewrite IH].
  - intro Hnd. eapply Nat.le_trans; [exact H4|].
    now apply attached_bcs_bound.
Qed.

End MultiplicityCounterProperties.

Section MultiplicityCounterSamples.

Import MultiplicityCounter.


Lemma processEventStat_counts_witness :
  exists new,
    registry (processEventStat false sampleBCs sampleCollisions staleCounter)
    = registry staleCounter ++ new
    /\ selectionCount 5 new = length sampleBCs
    /\ (selectionCount 6 new <= length sampleCollisions)%nat.
Proof.
  destruct (processEventStat_counts false sampleBCs sampleCollisions
              staleCounter)
    as (new & _ & _ & _ & H & _ & _ & _ & _ & H5 & H6).
  exists new. split; [exact H|]. split.
  - apply H5. reflexivity.
  - apply H6. change (NoDup [0; 1; 2]).
    repeat (constructor; [simpl; intros E; decompose [or] E;
                          try discriminate; try assumption|]).
    constructor.
Defined.

End MultiplicityCounterSamples.
